(** * A shallow embedding of the [dqn] Go package

    The package implements a small Deep Q-Learning agent: a two-layer
    value network ([qnetwork.go]), a bounded replay buffer
    ([replaybuffer.go]), the training rule and the epsilon-greedy policy
    ([train.go]) and a normalisation helper ([utils.go]).

    Go's [float64] is IEEE 754 binary64; it is embedded as the Standard
    Library's [spec_float] at precision 53 and maximal exponent 1024, so
    that divisions by zero, signed zeros and NaN behave as they do at run
    time; every sum and product is rounded on its own (no fused
    multiply-add).  A Go panic is an explicit [Panic] result.  The gonum
    [mat] package is an external dependency: its operations are modelled
    from their documented contracts (shape checks that panic,
    element-wise results), with dot products summed from index 0
    upwards. *)

From Stdlib Require Import ZArith String.
From Stdlib Require Import Floats.SpecFloat.
From stdpp Require Import base list.

Local Open Scope Z_scope.

(** ** float64 *)

Definition float64 : Type := spec_float.

Definition prec : Z := 53.
Definition emax : Z := 1024.

Definition fadd : float64 -> float64 -> float64 := SFadd prec emax.
Definition fsub : float64 -> float64 -> float64 := SFsub prec emax.
Definition fmul : float64 -> float64 -> float64 := SFmul prec emax.
Definition fdiv : float64 -> float64 -> float64 := SFdiv prec emax.
Definition fneg : float64 -> float64 := SFopp.

(** Go's [x < y], [x <= y] and [x > y] on floats: false as soon as one
    side is NaN. *)
Definition flt (x y : float64) : bool := SFltb x y.
Definition fle (x y : float64) : bool := SFleb x y.
Definition fgt (x y : float64) : bool := SFltb y x.

(** The conversion [float64(n)] of a Go [int], rounding to nearest even. *)
Definition float64_of_int (n : Z) : float64 := binary_normalize prec emax n 0 false.

Definition fzero : float64 := S754_zero false.
Definition fone : float64 := float64_of_int 1.
Definition ftwo : float64 := float64_of_int 2.
Definition fNaN : float64 := S754_nan.

Definition is_nan (x : float64) : bool :=
  match x with S754_nan => true | _ => false end.

#[global] Instance float64_eq_dec : EqDecision float64.
Proof. unfold float64. solve_decision. Defined.

(** ** int

    Go's [int] is 64 bits wide on the platforms the package targets; the
    only sum of two [int] values in the package is in [NewQNetwork]. *)
Definition int_add (a b : Z) : Z := (a + b + 2 ^ 63) mod 2 ^ 64 - 2 ^ 63.

(** ** Panics *)

Inductive panic : Type :=
  | IndexOutOfRange      (* runtime error: index out of range *)
  | SliceBoundsOutOfRange (* runtime error: slice bounds out of range *)
  | MakeLenOutOfRange    (* makeslice: len out of range *)
  | InvalidIntn          (* rand.Intn: invalid argument to Intn *)
  | ErrShape             (* gonum: dimension mismatch *)
  | ErrZeroLength        (* gonum: zero length in matrix dimension *)
  | ErrNegativeDimension (* gonum: negative dimension *)
  | PanicMsg (msg : string).

Inductive result (A : Type) : Type :=
  | Ok (a : A)
  | Panic (p : panic).
Arguments Ok {A} a.
Arguments Panic {A} p.

#[global] Instance result_ret : MRet result := fun A a => Ok a.
#[global] Instance result_bind : MBind result := fun A B f r =>
  match r with
  | Ok a => f a
  | Panic p => Panic p
  end.

Definition is_Ok {A} (r : result A) : Prop := exists a, r = Ok a.
Definition is_Panic {A} (r : result A) : Prop := exists p, r = Panic p.

(** ** Slices *)

Definition len {A} (s : list A) : Z := Z.of_nat (length s).

(** [s[i]] *)
Definition index {A} (s : list A) (i : Z) : result A :=
  if (i <? 0) || (len s <=? i) then Panic IndexOutOfRange
  else match s !! Z.to_nat i with
       | Some a => Ok a
       | None => Panic IndexOutOfRange
       end.

(** [s[i] = a] *)
Definition set_index {A} (s : list A) (i : Z) (a : A) : result (list A) :=
  if (i <? 0) || (len s <=? i) then Panic IndexOutOfRange
  else Ok (<[Z.to_nat i := a]> s).

(** [s[1:]] *)
Definition slice_from_1 {A} (s : list A) : result (list A) :=
  match s with
  | [] => Panic SliceBoundsOutOfRange
  | _ :: t => Ok t
  end.

(** [copy(dst, src)]: the first [min(len(dst), len(src))] elements. *)
Definition copy {A} (dst src : list A) : list A :=
  let n := Nat.min (length dst) (length src) in
  take n src ++ drop n dst.

(** [make([]T, n)] with the zero value [z] of [T]. *)
Definition make {A} (z : A) (n : Z) : result (list A) :=
  if n <? 0 then Panic MakeLenOutOfRange else Ok (replicate (Z.to_nat n) z).

(** A loop [for i := 0; i < n; i++ { s = body i s }]. *)
Definition for_upto {S} (n : nat) (body : nat -> S -> S) (s : S) : S :=
  fold_left (fun acc i => body i acc) (seq 0 n) s.

(** The same loop with a body that may panic. *)
Definition for_upto_r {S} (n : nat) (body : nat -> S -> result S) (s : S) : result S :=
  fold_left (fun acc i => acc ≫= body i) (seq 0 n) (Ok s).

(** [for i := range v { v[i] = f(v[i]) }] *)
Definition update_each (f : float64 -> float64) (v : list float64) : list float64 :=
  for_upto (length v)
    (fun i acc => match acc !! i with
                  | Some x => <[i := f x]> acc
                  | None => acc
                  end) v.

(** ** The pseudo-random source

    [math/rand] is a process-wide generator.  A source gives the value of
    the [i]-th call to [rand.Float64] and, for a bound [n], of the [i]-th
    call to [rand.Intn]; [rand_ok] is the contract of the package. *)

Record RandSource : Type := {
  rFloat64 : nat -> float64;
  rIntn : nat -> Z -> Z
}.

Definition rand_ok (g : RandSource) : Prop :=
  (forall i, fle fzero (rFloat64 g i) = true /\ flt (rFloat64 g i) fone = true) /\
  (forall i n, 0 < n -> 0 <= rIntn g i n < n).

Definition Float64 (g : RandSource) (i : nat) : float64 := rFloat64 g i.

Definition Intn (g : RandSource) (i : nat) (n : Z) : result Z :=
  if n <=? 0 then Panic InvalidIntn else Ok (rIntn g i n).

(** ** replaybuffer.go *)

Record Experience : Type := {
  State : list float64;
  NextState : list float64;
  Action : Z;
  Reward : Z;
  Done : bool
}.

Definition zeroExperience : Experience :=
  {| State := []; NextState := []; Action := 0; Reward := 0; Done := false |}.

Record ReplayBuffer : Type := {
  buffer : list Experience;
  size : Z
}.

Definition NewReplayBuffer (size : Z) : ReplayBuffer :=
  {| buffer := []; size := size |}.

Definition Add (rb : ReplayBuffer) (exp : Experience) : result ReplayBuffer :=
  buf ← (if len (buffer rb) >=? size rb
         then slice_from_1 (buffer rb)
         else Ok (buffer rb));
  Ok {| buffer := buf ++ [exp]; size := size rb |}.



(** A sequence of [Add] calls, stopping at the first panic. *)
Definition AddAll (rb : ReplayBuffer) (exps : list Experience) : result ReplayBuffer :=
  fold_left (fun acc e => acc ≫= fun rb => Add rb e) exps (Ok rb).

(** ** utils.go *)

Definition running_max (init : float64) (arr : list float64) : float64 :=
  fold_left (fun maxVal val => if fgt val maxVal then val else maxVal) arr init.

Definition Normalize (state : list float64) : list float64 :=
  let maxVal := running_max fzero state in
  update_each (fun x => fdiv x maxVal) state.

(** ** train.go: helper functions *)

Definition Max (arr : list float64) : result float64 :=
  maxVal ← index arr 0;
  Ok (running_max maxVal arr).

(** The state of the loop of [Argmax]: the position reached, [maxIdx]
    and [maxVal]. *)
Definition argmax_step (st : Z * Z * float64) (val : float64) : Z * Z * float64 :=
  let '(i, maxIdx, maxVal) := st in
  if fgt val maxVal then (i + 1, i, val) else (i + 1, maxIdx, maxVal).

Definition Argmax (arr : list float64) : result Z :=
  maxVal ← index arr 0;
  let '(_, maxIdx, _) := fold_left argmax_step arr (0, 0, maxVal) in
  Ok maxIdx.

(** ** gonum/mat, as far as the package uses it *)

Abbreviation VecDense := (list float64) (only parsing).
(** A dense matrix is the list of its rows. *)
Abbreviation Dense := (list (list float64)) (only parsing).

Definition rows (m : Dense) : Z := len m.
Definition cols (m : Dense) : Z :=
  match m with
  | [] => 0
  | r :: _ => len r
  end.

(** Every row has the matrix's number of columns. *)
Definition rectangular (m : Dense) : Prop := Forall (fun r => len r = cols m) m.

(** [m] has [r] rows of [c] entries each. *)
Definition has_shape (m : Dense) (r c : Z) : Prop :=
  len m = r /\ Forall (fun row => len row = c) m.

Definition check_dim (n : Z) : result unit :=
  if n <=? 0 then (if n =? 0 then Panic ErrZeroLength else Panic ErrNegativeDimension)
  else Ok tt.

(** [mat.NewVecDense(n, data)]; [None] is a nil [data]. *)
Definition NewVecDense (n : Z) (data : option (list float64)) : result VecDense :=
  check_dim n;;
  match data with
  | None => Ok (replicate (Z.to_nat n) fzero)
  | Some d => if len d =? n then Ok d else Panic ErrShape
  end.

(** [mat.NewDense(r, c, nil)] *)
Definition NewDense (r c : Z) : result Dense :=
  check_dim r;; check_dim c;;
  Ok (replicate (Z.to_nat r) (replicate (Z.to_nat c) fzero)).

(** A receiver is reused when it is empty or already has the shape of
    the result; any other shape panics. *)
Definition reuse_vec (recv : VecDense) (n : Z) : result unit :=
  if (len recv =? 0) || (len recv =? n) then Ok tt else Panic ErrShape.

Definition reuse_dense (recv : Dense) (r c : Z) : result unit :=
  if (rows recv =? 0) || ((rows recv =? r) && (cols recv =? c)) then Ok tt
  else Panic ErrShape.

Definition require_shape (b : bool) : result unit :=
  if b then Ok tt else Panic ErrShape.

Definition dot (a b : list float64) : float64 :=
  fold_left (fun s '(x, y) => fadd s (fmul x y)) (zip a b) fzero.

(** [m.T()] *)
Fixpoint T (m : Dense) : Dense :=
  match m with
  | [] => []
  | [r] => map (fun x => [x]) r
  | r :: m' => zip_with cons r (T m')
  end.

(** [recv.MulVec(a, b)] *)
Definition MulVec (recv : VecDense) (a : Dense) (b : VecDense) : result VecDense :=
  require_shape (cols a =? len b);;
  reuse_vec recv (rows a);;
  Ok (map (fun r => dot r b) a).

(** [recv.AddVec(a, b)] *)
Definition AddVec (recv a b : VecDense) : result VecDense :=
  require_shape (len a =? len b);;
  reuse_vec recv (len a);;
  Ok (zip_with fadd a b).

(** [recv.SubVec(a, b)] *)
Definition SubVec (recv a b : VecDense) : result VecDense :=
  require_shape (len a =? len b);;
  reuse_vec recv (len a);;
  Ok (zip_with fsub a b).

(** [recv.MulElemVec(a, b)] *)
Definition MulElemVec (recv a b : VecDense) : result VecDense :=
  require_shape (len a =? len b);;
  reuse_vec recv (len a);;
  Ok (zip_with fmul a b).

(** [recv.AddScaledVec(a, alpha, b)]: [a + alpha*b] *)
Definition AddScaledVec (recv a : VecDense) (alpha : float64) (b : VecDense)
  : result VecDense :=
  require_shape (len a =? len b);;
  reuse_vec recv (len a);;
  Ok (zip_with (fun x y => fadd x (fmul alpha y)) a b).

(** [recv.Outer(alpha, x, y)]: [alpha * x * yT] *)
Definition Outer (recv : Dense) (alpha : float64) (x y : VecDense) : result Dense :=
  reuse_dense recv (len x) (len y);;
  Ok (map (fun xi => map (fun yj => fmul (fmul alpha xi) yj) y) x).

(** [recv.Scale(f, a)]: the elements of [a] multiplied by [f], placed in
    the receiver. *)
Definition Scale (recv : Dense) (f : float64) (a : Dense) : result Dense :=
  reuse_dense recv (rows a) (cols a);;
  Ok (map (map (fmul f)) a).

(** [recv.Add(a, b)] (named [AddDense]: [Add] is the replay buffer's). *)
Definition AddDense (recv a b : Dense) : result Dense :=
  require_shape ((rows a =? rows b) && (cols a =? cols b));;
  reuse_dense recv (rows a) (cols a);;
  Ok (zip_with (zip_with fadd) a b).

(** ** qnetwork.go *)

Definition Activation : Type := float64 -> float64.

Record QNetwork : Type := {
  inputSize : Z;
  hiddenSize : Z;
  outputSize : Z;
  w1 : Dense;
  b1 : VecDense;
  w2 : Dense;
  b2 : VecDense;
  activation : Activation
}.

(** The shapes [NewQNetwork] establishes. *)
Record wf_network (q : QNetwork) : Prop := {
  wf_input : 0 < inputSize q;
  wf_hidden : 0 < hiddenSize q;
  wf_output : 0 < outputSize q;
  wf_w1_rows : rows (w1 q) = hiddenSize q;
  wf_w1_cols : cols (w1 q) = inputSize q;
  wf_w1_rect : rectangular (w1 q);
  wf_b1 : len (b1 q) = hiddenSize q;
  wf_w2_rows : rows (w2 q) = outputSize q;
  wf_w2_cols : cols (w2 q) = hiddenSize q;
  wf_w2_rect : rectangular (w2 q);
  wf_b2 : len (b2 q) = outputSize q
}.



(** The first layer before the activation, [w1 * x + b1], as both
    [Predict] and [Backward] compute it in [h]. *)
Definition pre_activation (q : QNetwork) (x : VecDense) : result VecDense :=
  h ← NewVecDense (hiddenSize q) None;
  h ← MulVec h (w1 q) x;
  AddVec h h (b1 q).

(** The activation loop then overwrites [h] in place. *)
Definition hidden_layer (q : QNetwork) (x : VecDense) : result VecDense :=
  h ← pre_activation q x;
  Ok (update_each (activation q) h).

Definition Predict (q : QNetwork) (state : list float64) : result (list float64) :=
  if negb (len state =? inputSize q)
  then Panic (PanicMsg "Input state size does not match network input size")
  else
    x ← NewVecDense (len state) (Some state);
    h ← hidden_layer q x;
    out ← NewVecDense (outputSize q) None;
    out ← MulVec out (w2 q) h;
    out ← AddVec out out (b2 q);
    Ok out.

Definition Loss (q : QNetwork) (predictions targets : list float64) : result float64 :=
  if negb (len predictions =? len targets)
  then Panic (PanicMsg "Predictions and targets must have the same length")
  else
    loss ← for_upto_r (length predictions)
              (fun i loss =>
                 p ← index predictions (Z.of_nat i);
                 t ← index targets (Z.of_nat i);
                 let diff := fsub p t in
                 Ok (fadd loss (fmul diff diff)))
              fzero;
    Ok (fdiv loss (float64_of_int (len predictions))).

(** The constant [1e-4]: the binary64 number nearest to one ten-thousandth. *)
Definition step_h : float64 := S754_finite false 7378697629483821 (-66).

Definition applyDerivative (v : VecDense) (activation : Activation) : VecDense :=
  let result := replicate (length v) fzero in
  for_upto (length v)
    (fun i result =>
       match v !! i with
       | Some x =>
           let h := step_h in
           <[i := fdiv (fsub (activation (fadd x h)) (activation (fsub x h)))
                       (fmul ftwo h)]> result
       | None => result
       end)
    result.

(** The gradients of [Backward], before the parameters are touched. *)
Record Gradients : Type := {
  g_h : VecDense;
  dOut : VecDense;
  dW2 : Dense;
  dB2 : VecDense;
  dH : VecDense;
  dW1 : Dense;
  dB1 : VecDense
}.

Definition Backward_gradients (q : QNetwork) (state prediction target : list float64)
  : result Gradients :=
  x ← NewVecDense (len state) (Some state);
  y ← NewVecDense (len target) (Some target);
  yHat ← NewVecDense (len prediction) (Some prediction);
  h ← hidden_layer q x;
  dOut ← NewVecDense (outputSize q) None;
  dOut ← SubVec dOut yHat y;
  dW2 ← NewDense (outputSize q) (hiddenSize q);
  dW2 ← Outer dW2 fone dOut h;
  let dB2 := dOut in
  dH ← NewVecDense (hiddenSize q) None;
  dH ← MulVec dH (T (w2 q)) dOut;
  dH ← MulElemVec dH dH (applyDerivative h (activation q));
  dW1 ← NewDense (hiddenSize q) (inputSize q);
  dW1 ← Outer dW1 fone dH x;
  let dB1 := dH in
  Ok {| g_h := h; dOut := dOut; dW2 := dW2; dB2 := dB2;
        dH := dH; dW1 := dW1; dB1 := dB1 |}.

Definition Backward (q : QNetwork) (state prediction target : list float64)
  (learningRate : float64) : result QNetwork :=
  g ← Backward_gradients q state prediction target;
  w2' ← Scale (w2 q) (fneg learningRate) (dW2 g);
  w2' ← AddDense w2' w2' (dW2 g);
  b2' ← AddScaledVec (b2 q) (b2 q) (fneg learningRate) (dB2 g);
  w1' ← Scale (w1 q) (fneg learningRate) (dW1 g);
  w1' ← AddDense w1' w1' (dW1 g);
  b1' ← AddScaledVec (b1 q) (b1 q) (fneg learningRate) (dB1 g);
  Ok {| inputSize := inputSize q; hiddenSize := hiddenSize q;
        outputSize := outputSize q;
        w1 := w1'; b1 := b1'; w2 := w2'; b2 := b2';
        activation := activation q |}.

Definition ReLU (x : float64) : float64 :=
  if fgt x fzero then x else fzero.

(** ** train.go *)

Record DQN : Type := {
  qNetwork : QNetwork;
  replayBuffer : ReplayBuffer;
  gamma : float64;
  epsilon : float64;
  learningRate : float64
}.

(** The target vector [Train] builds from the next state. *)
Definition Train_target (d : DQN) (nextState : list float64) (action reward : Z)
  (done : bool) : result (list float64) :=
  nextQValues ← Predict (qNetwork d) nextState;
  maxNextQValue ← Max nextQValues;
  target ← make fzero (len nextQValues);
  let target := copy target nextQValues in
  target ← set_index target action (float64_of_int reward);
  if negb done
  then t ← index target action;
       set_index target action (fadd t (fmul (gamma d) maxNextQValue))
  else Ok target.

Definition Train (d : DQN) (state nextState : list float64) (action reward : Z)
  (done : bool) : result DQN :=
  target ← Train_target d nextState action reward done;
  currentQValues ← Predict (qNetwork d) state;
  q' ← Backward (qNetwork d) state currentQValues target (learningRate d);
  Ok {| qNetwork := q'; replayBuffer := replayBuffer d; gamma := gamma d;
        epsilon := epsilon d; learningRate := learningRate d |}.

Definition EpsilonGreedyPolicy (d : DQN) (state : list float64) (numActions : Z)
  (g : RandSource) : result Z :=
  if flt (Float64 g 0) (epsilon d)
  then Intn g 0 numActions
  else
    qValues ← Predict (qNetwork d) state;
    Argmax qValues.

(** ** train.go: the constructor of the agent *)




(** ** qnetwork.go: what [Loss] accumulates *)

(** The sum of squared differences [Loss] accumulates over equal-length
    inputs. *)
Definition squared_error_sum (predictions targets : list float64) : float64 :=
  fold_left (fun loss '(p, t) => fadd loss (fmul (fsub p t) (fsub p t)))
            (zip predictions targets) fzero.

(** [x] is NaN or has its sign bit clear. *)
Definition sign_clear (x : float64) : bool :=
  match x with
  | S754_nan => true
  | S754_zero s | S754_infinity s | S754_finite s _ _ => negb s
  end.

(** ** serialization.go

    [Save] builds a [serializableDQN] and hands it to a [gob] encoder;
    [Load] decodes one and rebuilds the parameters from it.  The [gob]
    stream is an external format and is not modelled: [Save_struct] is
    what [Save] gives the encoder, [Load_struct] what [Load] does with a
    decoded structure. *)

Record serializableDQN : Type := {
  W1 : list (list float64);
  W2 : list (list float64);
  B1 : list float64;
  B2 : list float64;
  Gamma : float64;
  Epsilon : float64;
  LearningRate : float64
}.

(** [m.At(i, j)] *)
Definition At (m : Dense) (i j : Z) : result float64 :=
  if (i <? 0) || (rows m <=? i) then Panic (PanicMsg "matrix: row index out of range")
  else if (j <? 0) || (cols m <=? j) then Panic (PanicMsg "matrix: column index out of range")
  else row ← index m i; index row j.

(** [v.AtVec(i)] *)
Definition AtVec (v : VecDense) (i : Z) : result float64 :=
  if (i <? 0) || (len v <=? i) then Panic (PanicMsg "matrix: vector index out of range")
  else index v i.

Definition matToSlices (m : Dense) : result (list (list float64)) :=
  let r := rows m in
  let c := cols m in
  out ← make [] r;
  for_upto_r (Z.to_nat r)
    (fun i out =>
       row ← make fzero c;
       row ← for_upto_r (Z.to_nat c)
                (fun j row =>
                   v ← At m (Z.of_nat i) (Z.of_nat j);
                   set_index row (Z.of_nat j) v)
                row;
       set_index out (Z.of_nat i) row)
    out.

Definition vecToSlice (v : VecDense) : result (list float64) :=
  let n := len v in
  out ← make fzero n;
  for_upto_r (Z.to_nat n)
    (fun i out =>
       x ← AtVec v (Z.of_nat i);
       set_index out (Z.of_nat i) x)
    out.

(** The rows of a matrix of [r] rows and [c] columns stored row after
    row in [data]. *)
Fixpoint reshape (r c : nat) (data : list float64) : Dense :=
  match r with
  | O => []
  | S r' => take c data :: reshape r' c (drop c data)
  end.

(** [mat.NewDense(r, c, data)] with a [data] that is not nil. *)
Definition NewDenseData (r c : Z) (data : list float64) : result Dense :=
  check_dim r;; check_dim c;;
  if len data =? r * c then Ok (reshape (Z.to_nat r) (Z.to_nat c) data)
  else Panic ErrShape.

(** [None] is the nil pointer. *)
Definition slicesToMat (s : list (list float64)) : result (option Dense) :=
  if len s =? 0 then Ok None
  else
    let r := len s in
    s0 ← index s 0;
    let c := len s0 in
    let data := fold_left (fun data row => data ++ row) s [] in
    m ← NewDenseData r c data;
    Ok (Some m).

Definition sliceToVec (s : list float64) : result (option VecDense) :=
  if len s =? 0 then Ok None
  else
    v ← NewVecDense (len s) (Some s);
    Ok (Some v).

Definition Save_struct (d : DQN) : result serializableDQN :=
  sW1 ← matToSlices (w1 (qNetwork d));
  sW2 ← matToSlices (w2 (qNetwork d));
  sB1 ← vecToSlice (b1 (qNetwork d));
  sB2 ← vecToSlice (b2 (qNetwork d));
  Ok {| W1 := sW1; W2 := sW2; B1 := sB1; B2 := sB2;
        Gamma := gamma d; Epsilon := epsilon d; LearningRate := learningRate d |}.

(** The four pointers and three numbers [Load] stores into the agent. *)
Record restored : Type := {
  r_w1 : option Dense;
  r_w2 : option Dense;
  r_b1 : option VecDense;
  r_b2 : option VecDense;
  r_gamma : float64;
  r_epsilon : float64;
  r_learningRate : float64
}.

Definition Load_restore (s : serializableDQN) : result restored :=
  m1 ← slicesToMat (W1 s);
  m2 ← slicesToMat (W2 s);
  v1 ← sliceToVec (B1 s);
  v2 ← sliceToVec (B2 s);
  Ok {| r_w1 := m1; r_w2 := m2; r_b1 := v1; r_b2 := v2;
        r_gamma := Gamma s; r_epsilon := Epsilon s;
        r_learningRate := LearningRate s |}.

(** The agent after the assignments of [Load]: the sizes, the activation
    and the replay buffer are left as they were.  A [QNetwork] of this
    development holds matrices, not nil pointers, so the agent is [None]
    when one of the four stored pointers is nil. *)
Definition Load_install (d : DQN) (r : restored) : option DQN :=
  match r_w1 r, r_w2 r, r_b1 r, r_b2 r with
  | Some m1, Some m2, Some v1, Some v2 =>
      Some {| qNetwork :=
                {| inputSize := inputSize (qNetwork d);
                   hiddenSize := hiddenSize (qNetwork d);
                   outputSize := outputSize (qNetwork d);
                   w1 := m1; b1 := v1; w2 := m2; b2 := v2;
                   activation := activation (qNetwork d) |};
              replayBuffer := replayBuffer d;
              gamma := r_gamma r; epsilon := r_epsilon r;
              learningRate := r_learningRate r |}
  | _, _, _, _ => None
  end.

Definition Load_struct (d : DQN) (s : serializableDQN) : result (option DQN) :=
  r ← Load_restore s;
  Ok (Load_install d r).

(** ** examples/manufacturing_optimization: the environment *)

Definition fabs : float64 -> float64 := SFabs.

Record ManufacturingEnvironment : Type := {
  temperature : float64;
  pressure : float64;
  flow : float64;
  stepCount : Z
}.

Definition NewManufacturingEnvironment : ManufacturingEnvironment :=
  {| temperature := float64_of_int 150; pressure := float64_of_int 50;
     flow := float64_of_int 10; stepCount := 0 |}.

(** [Step] returns the environment it leaves, the new state, the reward
    and [done]. *)
Definition Step (env : ManufacturingEnvironment) (action : Z)
  : ManufacturingEnvironment * list float64 * float64 * bool :=
  let '(temperature', pressure', flow') :=
    if action =? 0 then
      (fadd (temperature env) (float64_of_int 5), pressure env, flow env)
    else if action =? 1 then
      (fsub (temperature env) (float64_of_int 5), pressure env, flow env)
    else if action =? 2 then
      (temperature env, fadd (pressure env) (float64_of_int 2), flow env)
    else if action =? 3 then
      (temperature env, fsub (pressure env) (float64_of_int 2), flow env)
    else if action =? 4 then
      (temperature env, pressure env, fadd (flow env) (float64_of_int 1))
    else if action =? 5 then
      (temperature env, pressure env, fsub (flow env) (float64_of_int 1))
    else (temperature env, pressure env, flow env) in
  let reward :=
    fdiv (fneg (fabs (fsub temperature' (float64_of_int 180)))) (float64_of_int 10) in
  let reward :=
    fsub reward (fdiv (fabs (fsub pressure' (float64_of_int 60))) (float64_of_int 5)) in
  let reward :=
    fsub reward (fdiv (fabs (fsub flow' (float64_of_int 12))) (float64_of_int 2)) in
  let stepCount' := int_add (stepCount env) 1 in
  let done := fgt reward (float64_of_int (-50)) in
  ({| temperature := temperature'; pressure := pressure'; flow := flow';
      stepCount := stepCount' |},
   [temperature'; pressure'; flow'], reward, done).

(** The reward of a state with the given three parameters. *)
Definition reward_of (t p f : float64) : float64 :=
  fsub (fsub (fdiv (fneg (fabs (fsub t (float64_of_int 180)))) (float64_of_int 10))
             (fdiv (fabs (fsub p (float64_of_int 60))) (float64_of_int 5)))
       (fdiv (fabs (fsub f (float64_of_int 12))) (float64_of_int 2)).

(** ** The update rule and the hidden error as the specification words them

    These two definitions follow the specification, not the code; the
    theorems below compare them with [Backward]. *)

(** [p <- p - learningRate * dLoss/dp], on one entry. *)
Definition spec_descent (learningRate p grad : float64) : float64 :=
  fsub p (fmul learningRate grad).

Definition spec_descent_vec (learningRate : float64) (p grad : VecDense) : VecDense :=
  zip_with (spec_descent learningRate) p grad.

Definition spec_descent_dense (learningRate : float64) (p grad : Dense) : Dense :=
  zip_with (spec_descent_vec learningRate) p grad.

(** The symmetric finite difference of step [1e-4]. *)
Definition finite_difference (activation : Activation) (x : float64) : float64 :=
  fdiv (fsub (activation (fadd x step_h)) (activation (fsub x step_h)))
       (fmul ftwo step_h).

(** [(W2^T * dOut) (.) activation'(W1 * state + b1)]: the derivative taken
    at the values of the hidden layer before the activation. *)
Definition spec_hidden_error (q : QNetwork) (state dOut : VecDense) : result VecDense :=
  pre ← pre_activation q state;
  back ← MulVec [] (T (w2 q)) dOut;
  Ok (zip_with fmul back (map (finite_difference (activation q)) pre)).

(** The values the forward pass computes when no shape check fails:
    [w1 * state + b1], and [w2 * activation(w1 * state + b1) + b2]. *)
Definition first_layer (q : QNetwork) (state : list float64) : list float64 :=
  zip_with fadd (map (fun r => dot r state) (w1 q)) (b1 q).

Definition forward (q : QNetwork) (state : list float64) : list float64 :=
  zip_with fadd
    (map (fun r => dot r (map (activation q) (first_layer q state))) (w2 q)) (b2 q).

(** ** A small network used in the examples *)

Definition f64 (n : Z) : float64 := float64_of_int n.

(** One input, one hidden unit, one output, rectifier activation. *)
Definition tiny_network (weight1 weight2 : Z) : QNetwork :=
  {| inputSize := 1; hiddenSize := 1; outputSize := 1;
     w1 := [[f64 weight1]]; b1 := [fzero];
     w2 := [[f64 weight2]]; b2 := [fzero];
     activation := ReLU |}.

(** One input, one hidden unit, two outputs whose values do not depend on
    the state: the biases are 0 and 1 and the second layer's weights 0. *)
Definition two_output_network : QNetwork :=
  {| inputSize := 1; hiddenSize := 1; outputSize := 2;
     w1 := [[fone]]; b1 := [fzero];
     w2 := [[fzero]; [fzero]]; b2 := [fzero; fone];
     activation := ReLU |}.

Definition agent (q : QNetwork) (eps : float64) : DQN :=
  {| qNetwork := q; replayBuffer := NewReplayBuffer 1;
     gamma := fone; epsilon := eps; learningRate := fzero |}.

(** A source whose draws are all zero; it meets [rand_ok]. *)
Definition zero_source : RandSource :=
  {| rFloat64 := fun _ => fzero; rIntn := fun _ _ => 0 |}.

(** * Properties *)

(** ** The order of float64 *)

Ltac compare_cases :=
  repeat match goal with
  | H : context [Z.compare ?x ?y] |- _ => destruct (Z.compare_spec x y); subst
  | |- context [Z.compare ?x ?y] => destruct (Z.compare_spec x y); subst
  | H : context [Pos.compare ?x ?y] |- _ => destruct (Pos.compare_spec x y); subst
  | |- context [Pos.compare ?x ?y] => destruct (Pos.compare_spec x y); subst
  end.

(** Case analysis on the floats in scope, then on the comparisons of
    exponents and mantissas. *)
Ltac float_order :=
  unfold flt, fle, fgt, is_nan, SFltb, SFleb, SFeqb, SFcompare;
  repeat match goal with
  | x : float64 |- _ => destruct x as [[]|[]| |[] ? ?]
  end;
  simpl; intros; try discriminate; try reflexivity;
  change (Pos.compare_cont Eq) with Pos.compare in *;
  compare_cases; simpl in *; try discriminate; try reflexivity; try lia.

Lemma flt_trans (a b c : float64) :
  flt a b = true -> flt b c = true -> flt a c = true.
Proof. float_order. Qed.

Lemma flt_fle_trans (a b c : float64) :
  flt a b = true -> fle b c = true -> flt a c = true.
Proof. float_order. Qed.

Lemma flt_irrefl (a : float64) : flt a a = false.
Proof. float_order. Qed.

Lemma flt_not_fle (a b : float64) : flt a b = true -> fle b a = false.
Proof. float_order. Qed.

Lemma fle_not_flt (a b : float64) : fle a b = false -> flt a b = false.
Proof. float_order. Qed.

(** Two floats that are not NaN are comparable. *)
Lemma not_flt_fle (a b : float64) :
  is_nan a = false -> is_nan b = false -> flt a b = false -> fle b a = true.
Proof. float_order. Qed.

Lemma not_fle_flt (a b : float64) :
  is_nan a = false -> is_nan b = false -> fle a b = false -> flt b a = true.
Proof. float_order. Qed.

(** A draw of [rand.Float64] is never below an [epsilon] equal to zero. *)
Lemma flt_zero_epsilon (u eps : float64) :
  SFeqb eps fzero = true -> fle fzero u = true -> flt u eps = false.
Proof. float_order. Qed.

(** What is not above [m] is not above anything greater than [m]. *)
Lemma not_fgt_mono (x m m' : float64) :
  fgt x m = false -> flt m m' = true -> fgt x m' = false.
Proof.
  intros Hx Hm. destruct (fgt x m') eqn:E; [|reflexivity].
  unfold fgt in Hx. fold (flt m x) in Hx. unfold fgt in E. fold (flt m' x) in E.
  rewrite (flt_trans m m' x Hm E) in Hx. discriminate.
Qed.

(** ** Negation

    [a + (-lr) * g] and [a - lr * g] are the same float. *)

Lemma binary_round_aux_opp (s : bool) m e l :
  binary_round_aux prec emax (negb s) m e l = SFopp (binary_round_aux prec emax s m e l).
Proof.
  unfold binary_round_aux.
  destruct (shr_fexp prec emax m e l) as [mrs' e'].
  destruct (shr_fexp prec emax _ e' loc_Exact) as [mrs'' e''].
  destruct (shr_m mrs''); [reflexivity| |reflexivity].
  destruct (e'' <=? emax - prec); reflexivity.
Qed.

Lemma fmul_fneg_l (x y : float64) : fmul (fneg x) y = fneg (fmul x y).
Proof.
  destruct x as [sx|sx| |sx mx ex], y as [sy|sy| |sy my ey]; simpl;
    try reflexivity; try (destruct sx, sy; reflexivity).
  unfold fmul, SFmul. rewrite <- negb_xorb_l. apply binary_round_aux_opp.
Qed.



(** ** Results *)

Lemma bind_Ok {A B} (r : result A) (f : A -> result B) (b : B) :
  r ≫= f = Ok b -> exists a, r = Ok a /\ f a = Ok b.
Proof. destruct r as [a|p]; simpl; [eauto | discriminate]. Qed.

Lemma is_Panic_not_Ok {A} (r : result A) (a : A) : is_Panic r -> r <> Ok a.
Proof. intros [p ->]. discriminate. Qed.

(** ** Slices and loops *)

Lemma len_nonneg {A} (s : list A) : 0 <= len s.
Proof. unfold len. lia. Qed.

Lemma len_nil_inv {A} (s : list A) : len s = 0 -> s = [].
Proof. destruct s; [reflexivity | unfold len; simpl; lia]. Qed.

Lemma index_Ok {A} (s : list A) (i : nat) (a : A) :
  s !! i = Some a -> index s (Z.of_nat i) = Ok a.
Proof.
  intros H. unfold index, len.
  pose proof (lookup_lt_Some _ _ _ H) as Hlt.
  replace (Z.of_nat i <? 0) with false by (symmetry; apply Z.ltb_ge; lia).
  replace (Z.of_nat (length s) <=? Z.of_nat i) with false
    by (symmetry; apply Z.leb_gt; lia).
  simpl. rewrite Nat2Z.id, H. reflexivity.
Qed.

Lemma index_in_range {A} (s : list A) (i : Z) :
  0 <= i < len s -> exists a, s !! Z.to_nat i = Some a /\ index s i = Ok a.
Proof.
  intros Hi. unfold len in Hi.
  destruct (lookup_lt_is_Some_2 s (Z.to_nat i)) as [a Ha]; [lia|].
  exists a. split; [exact Ha|].
  rewrite <- (Z2Nat.id i) by lia. apply index_Ok, Ha.
Qed.

Lemma set_index_in_range {A} (s : list A) (i : Z) (a : A) :
  0 <= i < len s -> set_index s i a = Ok (<[Z.to_nat i := a]> s).
Proof.
  intros Hi. unfold set_index.
  replace (i <? 0) with false by (symmetry; apply Z.ltb_ge; lia).
  replace (len s <=? i) with false by (symmetry; apply Z.leb_gt; lia).
  reflexivity.
Qed.

Lemma for_upto_S {S} (n : nat) (body : nat -> S -> S) (s : S) :
  for_upto (Datatypes.S n) body s = body n (for_upto n body s).
Proof. unfold for_upto. rewrite seq_S, fold_left_app. reflexivity. Qed.

Lemma for_upto_r_S {S} (n : nat) (body : nat -> S -> result S) (s : S) :
  for_upto_r (Datatypes.S n) body s = for_upto_r n body s ≫= body n.
Proof. unfold for_upto_r. rewrite seq_S, fold_left_app. reflexivity. Qed.

(** After [k] rounds the loop of [update_each] has rewritten the first
    [k] entries. *)
Lemma update_each_prefix (f : float64 -> float64) (v : list float64) (k : nat) :
  (k <= length v)%nat ->
  for_upto k
    (fun i acc => match acc !! i with
                  | Some x => <[i := f x]> acc
                  | None => acc
                  end) v
  = map f (take k v) ++ drop k v.
Proof.
  induction k as [|k IH]; intros Hk.
  - unfold for_upto. simpl. rewrite drop_0. reflexivity.
  - rewrite for_upto_S, IH by lia.
    destruct (lookup_lt_is_Some_2 v k) as [x Hx]; [lia|].
    assert (Hlen : length (map f (take k v)) = k)
      by (rewrite length_map, length_take; lia).
    rewrite lookup_app_r by lia.
    rewrite Hlen, Nat.sub_diag, lookup_drop, Nat.add_0_r, Hx.
    rewrite insert_app_r_alt by lia.
    rewrite Hlen, Nat.sub_diag, (drop_S _ _ _ Hx). simpl.
    rewrite (take_S_r _ _ _ Hx), map_app. simpl.
    rewrite <- app_assoc. reflexivity.
Qed.

Lemma update_each_map (f : float64 -> float64) (v : list float64) :
  update_each f v = map f v.
Proof.
  unfold update_each. rewrite update_each_prefix by lia.
  rewrite firstn_all, drop_all, app_nil_r. reflexivity.
Qed.

Lemma applyDerivative_map (v : VecDense) (act : Activation) :
  applyDerivative v act = map (finite_difference act) v.
Proof.
  unfold applyDerivative.
  assert (H : forall k, (k <= length v)%nat ->
    for_upto k
      (fun i result =>
         match v !! i with
         | Some x =>
             let h := step_h in
             <[i := fdiv (fsub (act (fadd x h)) (act (fsub x h))) (fmul ftwo h)]> result
         | None => result
         end) (replicate (length v) fzero)
    = map (finite_difference act) (take k v) ++ replicate (length v - k) fzero).
  { induction k as [|k IH]; intros Hk.
    - unfold for_upto. simpl. rewrite Nat.sub_0_r. reflexivity.
    - rewrite for_upto_S, IH by lia.
      destruct (lookup_lt_is_Some_2 v k) as [x Hx]; [lia|].
      rewrite Hx. cbv zeta.
      assert (Hlen : length (map (finite_difference act) (take k v)) = k)
        by (rewrite length_map, length_take; lia).
      rewrite insert_app_r_alt by lia.
      rewrite Hlen, Nat.sub_diag.
      replace (length v - k)%nat with (Datatypes.S (length v - Datatypes.S k)) by lia.
      simpl. rewrite (take_S_r _ _ _ Hx), map_app. simpl.
      rewrite <- app_assoc. reflexivity. }
  rewrite H by lia.
  rewrite firstn_all, Nat.sub_diag. simpl. apply app_nil_r.
Qed.

Lemma bind_Ok_l {A B} (a : A) (f : A -> result B) : Ok a ≫= f = f a.
Proof. reflexivity. Qed.

Lemma bind_Panic_l {A B} (p : panic) (f : A -> result B) : Panic p ≫= f = Panic p.
Proof. reflexivity. Qed.


(** ** The replay buffer *)

Lemma Add_below_capacity (rb : ReplayBuffer) (e : Experience) :
  len (buffer rb) < size rb ->
  Add rb e = Ok {| buffer := buffer rb ++ [e]; size := size rb |}.
Proof.
  intros H. unfold Add.
  replace (len (buffer rb) >=? size rb) with false
    by (symmetry; rewrite Z.geb_leb; apply Z.leb_gt; lia).
  reflexivity.
Qed.

Lemma Add_at_capacity (rb : ReplayBuffer) (e : Experience) :
  1 <= size rb -> size rb <= len (buffer rb) ->
  exists oldest rest, buffer rb = oldest :: rest /\
    Add rb e = Ok {| buffer := rest ++ [e]; size := size rb |}.
Proof.
  intros H1 H. unfold Add.
  replace (len (buffer rb) >=? size rb) with true
    by (symmetry; rewrite Z.geb_leb; apply Z.leb_le; lia).
  destruct (buffer rb) as [|oldest rest] eqn:E.
  - unfold len in H. simpl in H. lia.
  - exists oldest, rest. split; reflexivity.
Qed.

Lemma AddAll_cons (rb : ReplayBuffer) (e : Experience) (exps : list Experience) :
  AddAll rb (e :: exps) = Add rb e ≫= fun rb' => AddAll rb' exps.
Proof.
  unfold AddAll. simpl. destruct (Add rb e) as [rb'|p]; [reflexivity|].
  rewrite bind_Panic_l. induction exps as [|x xs IH]; [reflexivity | exact IH].
Qed.

(** From a buffer within its capacity, any sequence of [Add] succeeds and
    leaves the last [size] entries of everything inserted so far. *)
Lemma AddAll_keeps_last (exps : list Experience) : forall rb : ReplayBuffer,
  1 <= size rb -> len (buffer rb) <= size rb ->
  AddAll rb exps =
    Ok {| buffer := drop (length (buffer rb ++ exps) - Z.to_nat (size rb))
                         (buffer rb ++ exps);
          size := size rb |}.
Proof.
  induction exps as [|e exps IH]; intros rb H1 Hlen.
  - unfold AddAll. simpl. rewrite app_nil_r.
    replace (length (buffer rb) - Z.to_nat (size rb))%nat with 0%nat
      by (unfold len in Hlen; lia).
    rewrite drop_0. destruct rb; reflexivity.
  - rewrite AddAll_cons.
    destruct (Z_lt_le_dec (len (buffer rb)) (size rb)) as [Hlt|Hge].
    + rewrite Add_below_capacity, bind_Ok_l by exact Hlt.
      rewrite IH; simpl.
      * rewrite <- app_assoc. reflexivity.
      * exact H1.
      * unfold len in *. rewrite length_app. simpl. lia.
    + destruct (Add_at_capacity rb e H1 Hge) as (oldest & rest & Hbuf & ->).
      rewrite bind_Ok_l, IH; simpl.
      * rewrite Hbuf. rewrite <- !app_assoc. simpl.
        rewrite Hbuf in Hlen, Hge. unfold len in Hlen, Hge. simpl in Hlen, Hge.
        rewrite !length_app. simpl.
        replace (Datatypes.S (length rest + Datatypes.S (length exps)) - Z.to_nat (size rb))%nat
          with (Datatypes.S (length rest + Datatypes.S (length exps) - Z.to_nat (size rb)))
          by lia.
        reflexivity.
      * exact H1.
      * rewrite Hbuf in Hlen. unfold len in *. rewrite length_app. simpl in *. lia.
Qed.

(** C6: with a capacity [C >= 1], every sequence of [Add] calls on a new
    buffer succeeds and leaves at most [C] entries, namely the last [C]
    inserted, in insertion order; an [Add] at capacity drops exactly the
    oldest entry and appends the new one, an [Add] below capacity only
    appends; and with capacity 2, inserting [A], [B], [C'] leaves
    [[B; C']]. *)
Theorem ReplayBuffer_capacity_fifo (C : Z) (HC : 1 <= C) :
  (forall exps : list Experience, exists rb,
      AddAll (NewReplayBuffer C) exps = Ok rb /\ size rb = C /\
      len (buffer rb) <= C /\
      buffer rb = drop (length exps - Z.to_nat C) exps) /\
  (forall rb e, size rb = C -> len (buffer rb) = C ->
      exists oldest rest, buffer rb = oldest :: rest /\
        Add rb e = Ok {| buffer := rest ++ [e]; size := C |}) /\
  (forall rb e, size rb = C -> len (buffer rb) < C ->
      Add rb e = Ok {| buffer := buffer rb ++ [e]; size := C |}) /\
  (forall A B C' : Experience,
      AddAll (NewReplayBuffer 2) [A; B; C'] = Ok {| buffer := [B; C']; size := 2 |}).
Proof.
  split; [|split; [|split]].
  - intros exps. eexists. split.
    + apply AddAll_keeps_last; simpl; [exact HC | unfold len; simpl; lia].
    + simpl. split; [reflexivity|]. split; [|reflexivity].
      unfold len. rewrite length_drop. lia.
  - intros rb e Hsize Hlen.
    destruct (Add_at_capacity rb e) as (oldest & rest & Hbuf & HAdd); [lia..|].
    exists oldest, rest. rewrite <- Hsize. split; assumption.
  - intros rb e Hsize Hlen. rewrite <- Hsize. apply Add_below_capacity. lia.
  - intros A B C'. reflexivity.
Qed.

Lemma ReplayBuffer_capacity_fifo_witness :
  1 <= 2 /\
  exists rb, AddAll (NewReplayBuffer 2) [zeroExperience; zeroExperience; zeroExperience] = Ok rb /\
             len (buffer rb) <= 2.
Proof.
  split; [lia|].
  destruct (ReplayBuffer_capacity_fifo 2 ltac:(lia)) as [H _].
  destruct (H [zeroExperience; zeroExperience; zeroExperience]) as (rb & Hrb & _ & Hlen & _).
  exists rb. split; assumption.
Defined.

(** C7, as the specification states it, fails: with capacity 0 the very
    first [Add] does not complete. *)
Lemma capacity_zero_Add_does_not_complete :
  ~ (forall exps : list Experience, exists rb,
       AddAll (NewReplayBuffer 0) exps = Ok rb /\ len (buffer rb) = 0).
Proof.
  intros H. destruct (H [zeroExperience]) as (rb & Hrb & _).
  vm_compute in Hrb. discriminate Hrb.
Qed.

(** C7, amended: on a buffer constructed with capacity 0 the first [Add]
    panics when it slices the empty buffer, so does every non-empty
    sequence of [Add] calls, and no entry is ever stored. *)
Theorem capacity_zero_first_Add_panics (e : Experience) (exps : list Experience) :
  Add (NewReplayBuffer 0) e = Panic SliceBoundsOutOfRange /\
  AddAll (NewReplayBuffer 0) (e :: exps) = Panic SliceBoundsOutOfRange /\
  buffer (NewReplayBuffer 0) = [].
Proof.
  repeat split. rewrite AddAll_cons. reflexivity.
Qed.

(** ** Sampling *)

Lemma zero_source_ok : rand_ok zero_source.
Proof.
  split.
  - intros i. split; reflexivity.
  - intros i n Hn. simpl. lia.
Qed.





(** ** Normalize *)

(** The running maximum is the start value or an entry, and no entry is
    greater than it. *)
Lemma running_max_spec (arr : list float64) : forall init : float64,
  (running_max init arr = init \/
   (running_max init arr ∈ arr /\ flt init (running_max init arr) = true)) /\
  fgt init (running_max init arr) = false /\
  (forall x, x ∈ arr -> fgt x (running_max init arr) = false).
Proof.
  induction arr as [|val arr IH]; intros init.
  - simpl. split; [left; reflexivity|]. split; [apply flt_irrefl|].
    intros x Hx. inversion Hx.
  - unfold running_max. simpl. fold (running_max (if fgt val init then val else init) arr).
    destruct (fgt val init) eqn:E.
    + destruct (IH val) as (Hwhere & Hinit & Hall).
      assert (Hlt : flt init val = true) by exact E.
      split; [|split].
      * right. destruct Hwhere as [->|[Hin Hgt]].
        -- split; [left | exact Hlt].
        -- split; [right; exact Hin | exact (flt_trans _ _ _ Hlt Hgt)].
      * destruct Hwhere as [->|[_ Hgt]].
        -- unfold fgt. fold (flt val init). apply fle_not_flt, flt_not_fle, Hlt.
        -- unfold fgt. fold (flt (running_max val arr) init).
           apply fle_not_flt, flt_not_fle. exact (flt_trans _ _ _ Hlt Hgt).
      * intros x Hx. apply elem_of_cons in Hx as [->|Hx]; [exact Hinit | apply Hall, Hx].
    + destruct (IH init) as (Hwhere & Hinit & Hall).
      split; [|split].
      * destruct Hwhere as [->|[Hin Hgt]]; [left; reflexivity|].
        right. split; [right; exact Hin | exact Hgt].
      * exact Hinit.
      * intros x Hx. apply elem_of_cons in Hx as [->|Hx]; [|apply Hall, Hx].
        destruct Hwhere as [->|[_ Hgt]]; [exact E|].
        exact (not_fgt_mono _ _ _ E Hgt).
Qed.

(** C9, as the specification states it, fails twice: a vector whose
    maximum is zero is not returned unchanged, and a vector whose maximum
    is negative is not divided by that maximum. *)
Lemma Normalize_zero_maximum_not_unchanged :
  Normalize [fzero] = [fNaN] /\ Normalize [fzero] <> [fzero] /\
  Normalize [f64 (-1)] = [S754_infinity true] /\
  Normalize [f64 (-1)] <> [fdiv (f64 (-1)) (f64 (-1))].
Proof.
  split; [reflexivity|]. split; [discriminate|].
  split; [reflexivity | discriminate].
Qed.

(** C9, amended: [Normalize] divides every component by [m], the running
    maximum of the components started at 0, and nothing guards the
    division.  When some component is greater than 0, [m] is the maximum
    of the vector: a component that no component exceeds.  When the
    maximum of the vector is zero (no component is greater than 0), [m]
    is 0 and every component is divided by zero instead of being left
    unchanged. *)
Theorem Normalize_divides_by_running_max (state : list float64) :
  let m := running_max fzero state in
  Normalize state = map (fun x => fdiv x m) state /\
  ((exists x, x ∈ state /\ fgt x fzero = true) ->
     m ∈ state /\ flt fzero m = true /\ forall x, x ∈ state -> fgt x m = false) /\
  ((forall x, x ∈ state -> fgt x fzero = false) ->
     m = fzero /\ Normalize state = map (fun x => fdiv x fzero) state).
Proof.
  intros m. destruct (running_max_spec state fzero) as (Hwhere & _ & Hall).
  fold m in Hwhere, Hall.
  assert (Hmap : Normalize state = map (fun x => fdiv x m) state)
    by apply update_each_map.
  split; [exact Hmap|]. split.
  - intros (x & Hx & Hpos). destruct Hwhere as [Hm|[Hin Hgt]].
    + specialize (Hall x Hx). rewrite Hm in Hall. congruence.
    + split; [exact Hin|]. split; [exact Hgt | exact Hall].
  - intros Hnone. assert (Hm : m = fzero).
    { destruct Hwhere as [Hm|[Hin Hgt]]; [exact Hm|].
      specialize (Hnone _ Hin). unfold fgt in Hnone. unfold flt in Hgt. congruence. }
    split; [exact Hm|]. rewrite Hmap, Hm. reflexivity.
Qed.

Lemma Normalize_divides_by_running_max_witness :
  (exists x, x ∈ [f64 1; f64 4; f64 2] /\ fgt x fzero = true) /\
  running_max fzero [f64 1; f64 4; f64 2] ∈ [f64 1; f64 4; f64 2] /\
  (forall x, x ∈ [fzero; f64 (-1)] -> fgt x fzero = false) /\
  Normalize [fzero; f64 (-1)] = map (fun x => fdiv x fzero) [fzero; f64 (-1)].
Proof.
  assert (Hpos : exists x, x ∈ [f64 1; f64 4; f64 2] /\ fgt x fzero = true).
  { exists (f64 1). split; [left | reflexivity]. }
  assert (Hnone : forall x, x ∈ [fzero; f64 (-1)] -> fgt x fzero = false).
  { intros x Hx. apply elem_of_cons in Hx as [->|Hx]; [reflexivity|].
    apply list_elem_of_singleton in Hx as ->. reflexivity. }
  split; [exact Hpos|].
  destruct (Normalize_divides_by_running_max [f64 1; f64 4; f64 2]) as (_ & Hmax & _).
  destruct (Normalize_divides_by_running_max [fzero; f64 (-1)]) as (_ & _ & Hzero).
  split; [apply Hmax, Hpos|]. split; [exact Hnone | apply Hzero, Hnone].
Defined.

(** ** Loss *)

(** C10: on two empty sequences [Loss] passes the length check, does not
    panic, and returns the quotient of the zero sum by [float64(0)],
    which is NaN. *)
Theorem Loss_empty_is_NaN (q : QNetwork) :
  Loss q [] [] = Ok (fdiv fzero (float64_of_int (len (@nil float64)))) /\
  float64_of_int (len (@nil float64)) = fzero /\
  exists r, Loss q [] [] = Ok r /\ is_nan r = true.
Proof.
  split; [reflexivity|]. split; [reflexivity|].
  exists fNaN. split; reflexivity.
Qed.

(** ** Max and Argmax *)

Lemma Max_spec (arr : list float64) :
  arr <> [] ->
  exists m, Max arr = Ok m /\ m ∈ arr /\ forall y, y ∈ arr -> fgt y m = false.
Proof.
  destruct arr as [|a0 rest]; [congruence|]. intros _.
  exists (running_max a0 (a0 :: rest)). split; [reflexivity|].
  destruct (running_max_spec (a0 :: rest) a0) as (Hwhere & _ & Hall).
  split; [|exact Hall].
  destruct Hwhere as [->|[Hin _]]; [left | exact Hin].
Qed.

(** The loop of [Argmax] from position [i0] with [idx0] and [m0]: either
    nothing was greater than [m0], or the loop stops on the first entry
    that nothing before it equals or exceeds and nothing at all exceeds. *)
Lemma argmax_loop (l : list float64) : forall (i0 idx0 : Z) (m0 : float64) i idx m,
  fold_left argmax_step l (i0, idx0, m0) = (i, idx, m) ->
  i = i0 + len l /\
  ((idx = idx0 /\ m = m0) \/
   (i0 <= idx < i0 + len l /\
    l !! Z.to_nat (idx - i0) = Some m /\
    flt m0 m = true /\
    forall j y, (j < Z.to_nat (idx - i0))%nat -> l !! j = Some y -> fle m y = false)) /\
  (forall y, y ∈ l -> flt m y = false).
Proof.
  induction l as [|x l IH]; intros i0 idx0 m0 i idx m Hfold.
  - simpl in Hfold. injection Hfold as <- <- <-.
    split; [unfold len; simpl; lia|]. split; [left; split; reflexivity|].
    intros y Hy. inversion Hy.
  - simpl in Hfold. unfold len. rewrite length_cons, Nat2Z.inj_succ. fold (len l).
    destruct (fgt x m0) eqn:E.
    + apply IH in Hfold as (Hi & Hcases & Hall).
      assert (Hlt : flt m0 x = true) by exact E.
      split; [lia|]. split.
      * right. destruct Hcases as [[-> ->]|(Hrange & Hlook & Hgt & Hbefore)].
        -- split; [pose proof (len_nonneg l); lia|].
           rewrite Z.sub_diag. split; [reflexivity|]. split; [exact Hlt|].
           intros j y Hj. simpl in Hj. lia.
        -- split; [lia|].
           replace (Z.to_nat (idx - i0)) with (Datatypes.S (Z.to_nat (idx - (i0 + 1)))) by lia.
           split; [exact Hlook|]. split; [exact (flt_trans _ _ _ Hlt Hgt)|].
           intros [|j] y Hj Hy.
           ++ injection Hy as <-. apply flt_not_fle, Hgt.
           ++ apply (Hbefore j y); [lia | exact Hy].
      * intros y Hy. apply elem_of_cons in Hy as [->|Hy]; [|apply Hall, Hy].
        destruct Hcases as [[_ ->]|(_ & _ & Hgt & _)]; [apply flt_irrefl|].
        apply fle_not_flt, flt_not_fle, Hgt.
    + apply IH in Hfold as (Hi & Hcases & Hall).
      split; [lia|]. split.
      * destruct Hcases as [[-> ->]|(Hrange & Hlook & Hgt & Hbefore)];
          [left; split; reflexivity|].
        right. split; [lia|].
        replace (Z.to_nat (idx - i0)) with (Datatypes.S (Z.to_nat (idx - (i0 + 1)))) by lia.
        split; [exact Hlook|]. split; [exact Hgt|].
        intros [|j] y Hj Hy.
        -- injection Hy as <-. destruct (fle m x) eqn:Hle; [|reflexivity].
           pose proof (flt_fle_trans _ _ _ Hgt Hle) as Hc.
           unfold fgt in E. unfold flt in Hc. congruence.
        -- apply (Hbefore j y); [lia | exact Hy].
      * intros y Hy. apply elem_of_cons in Hy as [->|Hy]; [|apply Hall, Hy].
        destruct Hcases as [[_ ->]|(_ & _ & Hgt & _)]; [exact E|].
        exact (not_fgt_mono _ _ _ E Hgt).
Qed.

(** On a non-empty slice [Argmax] returns an index in range whose entry
    nothing exceeds and which no earlier entry equals or exceeds. *)
Lemma Argmax_spec (arr : list float64) :
  arr <> [] ->
  exists i m, Argmax arr = Ok i /\ 0 <= i < len arr /\
    arr !! Z.to_nat i = Some m /\
    (forall y, y ∈ arr -> flt m y = false) /\
    (forall j y, (j < Z.to_nat i)%nat -> arr !! j = Some y -> fle m y = false).
Proof.
  destruct arr as [|a0 rest]; [congruence|]. intros _.
  unfold Argmax. change (index (a0 :: rest) 0) with (Ok a0). rewrite bind_Ok_l.
  destruct (fold_left argmax_step (a0 :: rest) (0, 0, a0)) as [[i idx] m] eqn:Hfold.
  apply argmax_loop in Hfold as (Hi & Hcases & Hall).
  exists idx, m. split; [reflexivity|].
  destruct Hcases as [[-> ->]|(Hrange & Hlook & _ & Hbefore)].
  - split; [unfold len; simpl; lia|]. split; [reflexivity|]. split; [exact Hall|].
    intros j y Hj. simpl in Hj. lia.
  - rewrite Z.sub_0_r in Hlook, Hbefore.
    split; [lia|]. split; [exact Hlook|]. split; [exact Hall | exact Hbefore].
Qed.

(** ** The forward pass *)

Lemma len_replicate {A} (n : Z) (a : A) : 0 <= n -> len (replicate (Z.to_nat n) a) = n.
Proof. intros H. unfold len. rewrite length_replicate. lia. Qed.

Lemma len_map {A B} (f : A -> B) (l : list A) : len (map f l) = len l.
Proof. unfold len. rewrite length_map. reflexivity. Qed.

Lemma len_zip_with {A B C} (f : A -> B -> C) (a : list A) (b : list B) :
  len a = len b -> len (zip_with f a b) = len a.
Proof. unfold len. intros H. rewrite length_zip_with. lia. Qed.

Lemma check_dim_pos (n : Z) : 0 < n -> check_dim n = Ok tt.
Proof.
  intros H. unfold check_dim.
  replace (n <=? 0) with false by (symmetry; apply Z.leb_gt; lia). reflexivity.
Qed.

Lemma NewVecDense_nil (n : Z) :
  0 < n -> NewVecDense n None = Ok (replicate (Z.to_nat n) fzero).
Proof. intros H. unfold NewVecDense. rewrite check_dim_pos by exact H. reflexivity. Qed.

Lemma NewVecDense_data (d : list float64) :
  0 < len d -> NewVecDense (len d) (Some d) = Ok d.
Proof.
  intros H. unfold NewVecDense. rewrite check_dim_pos by exact H.
  rewrite bind_Ok_l, Z.eqb_refl. reflexivity.
Qed.

Lemma reuse_vec_same (recv : list float64) (n : Z) : len recv = n -> reuse_vec recv n = Ok tt.
Proof. intros <-. unfold reuse_vec. rewrite Z.eqb_refl, orb_true_r. reflexivity. Qed.

Lemma MulVec_Ok (recv : list float64) (a : list (list float64)) (b : list float64) :
  cols a = len b -> len recv = rows a ->
  MulVec recv a b = Ok (map (fun r => dot r b) a).
Proof.
  intros Hc Hr. unfold MulVec. rewrite Hc, Z.eqb_refl. simpl require_shape.
  rewrite bind_Ok_l, reuse_vec_same by exact Hr. reflexivity.
Qed.

Lemma AddVec_Ok (recv a b : list float64) :
  len a = len b -> len recv = len a -> AddVec recv a b = Ok (zip_with fadd a b).
Proof.
  intros Hab Hr. unfold AddVec. rewrite Hab, Z.eqb_refl. simpl require_shape.
  rewrite bind_Ok_l, reuse_vec_same by congruence. reflexivity.
Qed.

Section Forward.
Variable q : QNetwork.
Hypothesis Hwf : wf_network q.
Variable state : list float64.
Hypothesis Hstate : len state = inputSize q.

Lemma pre_activation_Ok : pre_activation q state = Ok (first_layer q state).
Proof using Hwf Hstate.
  destruct Hwf. unfold pre_activation.
  rewrite NewVecDense_nil, bind_Ok_l by assumption.
  rewrite MulVec_Ok, bind_Ok_l; [|congruence|rewrite len_replicate; lia].
  apply AddVec_Ok; rewrite len_map; unfold rows in *; congruence.
Qed.

Lemma len_first_layer : len (first_layer q state) = hiddenSize q.
Proof using Hwf.
  destruct Hwf. unfold first_layer.
  rewrite len_zip_with; rewrite len_map; unfold rows in *; congruence.
Qed.

Lemma hidden_layer_Ok :
  hidden_layer q state = Ok (map (activation q) (first_layer q state)).
Proof using Hwf Hstate.
  unfold hidden_layer. rewrite pre_activation_Ok, bind_Ok_l, update_each_map.
  reflexivity.
Qed.

Lemma len_forward : len (forward q state) = outputSize q.
Proof using Hwf.
  destruct Hwf. unfold forward.
  rewrite len_zip_with; rewrite len_map; unfold rows in *; congruence.
Qed.

(** [Predict] succeeds on a state of the input length and returns
    [outputSize] values. *)
Lemma Predict_Ok : Predict q state = Ok (forward q state).
Proof using Hwf Hstate.
  pose proof len_first_layer as Hfirst.
  destruct Hwf. unfold Predict.
  rewrite Hstate, Z.eqb_refl. simpl negb. cbv iota.
  rewrite <- Hstate, NewVecDense_data, bind_Ok_l by lia.
  rewrite hidden_layer_Ok, bind_Ok_l.
  rewrite NewVecDense_nil, bind_Ok_l by assumption.
  rewrite MulVec_Ok, bind_Ok_l;
    [|rewrite len_map; congruence|rewrite len_replicate; lia].
  rewrite AddVec_Ok; [reflexivity| |]; rewrite len_map; unfold rows in *; congruence.
Qed.

Lemma forward_nonempty : forward q state <> [].
Proof using Hwf.
  pose proof len_forward as H. destruct Hwf.
  intros E. rewrite E in H. unfold len in H. simpl in H. lia.
Qed.
End Forward.

(** ** Shapes *)

Lemma has_shape_dims m r c :
  0 < r -> has_shape m r c -> rows m = r /\ cols m = c /\ rectangular m.
Proof.
  intros Hr [Hlen Hall]. unfold rows, rectangular.
  destruct m as [|row m]; [unfold len in Hlen; simpl in Hlen; lia|].
  simpl cols. inversion Hall as [|? ? Hrow Hrest]; subst.
  split; [reflexivity|]. split; [reflexivity|].
  constructor; [reflexivity|].
  eapply Forall_impl; [exact Hrest|]. simpl. intros; congruence.
Qed.

Lemma dims_has_shape m : rectangular m -> has_shape m (rows m) (cols m).
Proof. intros H. split; [reflexivity | exact H]. Qed.

Lemma has_shape_replicate (r c : Z) (z : float64) :
  0 <= r -> 0 <= c ->
  has_shape (replicate (Z.to_nat r) (replicate (Z.to_nat c) z)) r c.
Proof.
  intros Hr Hc. split; [apply len_replicate, Hr|].
  apply Forall_replicate, len_replicate, Hc.
Qed.

Lemma has_shape_map (f : float64 -> float64) m r c :
  has_shape m r c -> has_shape (map (map f) m) r c.
Proof.
  intros [Hlen Hall]. split; [rewrite len_map; exact Hlen|].
  clear Hlen. induction Hall as [|row m Hrow _ IH]; simpl; constructor;
    [rewrite len_map; exact Hrow | exact IH].
Qed.

Lemma has_shape_zip_with (f : float64 -> float64 -> float64) a b r c :
  has_shape a r c -> has_shape b r c -> has_shape (zip_with (zip_with f) a b) r c.
Proof.
  intros [Ha Halla] [Hb Hallb]. split; [rewrite len_zip_with; congruence|].
  clear Ha Hb. revert b Hallb.
  induction Halla as [|ra a Hra _ IH]; intros b Hallb; simpl; [constructor|].
  destruct Hallb as [|rb b Hrb Hallb]; constructor.
  - rewrite len_zip_with; congruence.
  - apply IH, Hallb.
Qed.

Lemma has_shape_outer (f : float64 -> float64 -> float64) (x y : list float64) r c :
  len x = r -> len y = c -> has_shape (map (fun xi => map (f xi) y) x) r c.
Proof.
  intros <- <-. split; [apply len_map|].
  induction x as [|xi x IH]; simpl; constructor; [apply len_map | exact IH].
Qed.

Lemma has_shape_T m : forall r c,
  0 < r -> has_shape m r c -> has_shape (T m) c r.
Proof.
  induction m as [|row m IH]; intros r c Hr [Hlen Hall].
  - unfold len in Hlen. simpl in Hlen. lia.
  - inversion Hall as [|? ? Hrow Hrest]; subst.
    destruct m as [|row' m'].
    + simpl. split; [apply len_map|].
      clear. induction row as [|x row IH]; simpl; constructor; [reflexivity | exact IH].
    + assert (Hsub : has_shape (T (row' :: m')) (len row) (len (row' :: m'))).
      { apply IH; [unfold len; simpl; lia|]. split; [reflexivity | exact Hrest]. }
      destruct Hsub as [HlenT HallT].
      change (T (row :: row' :: m')) with (zip_with cons row (T (row' :: m'))).
      split; [rewrite len_zip_with; congruence|].
      clear IH Hall Hrest Hr HlenT. revert HallT. generalize (T (row' :: m')) as t.
      induction row as [|x row IHrow]; intros t HallT; simpl; [constructor|].
      destruct HallT as [|rt t Hrt HallT]; constructor.
      * unfold len in *. simpl in *. lia.
      * apply IHrow, HallT.
Qed.

Lemma NewDense_Ok (r c : Z) :
  0 < r -> 0 < c ->
  NewDense r c = Ok (replicate (Z.to_nat r) (replicate (Z.to_nat c) fzero)).
Proof.
  intros Hr Hc. unfold NewDense. rewrite !check_dim_pos by assumption. reflexivity.
Qed.

Lemma reuse_dense_same recv r c :
  0 < r -> has_shape recv r c -> reuse_dense recv r c = Ok tt.
Proof.
  intros Hr H. destruct (has_shape_dims _ _ _ Hr H) as (Hrows & Hcols & _).
  unfold reuse_dense. rewrite Hrows, Hcols, !Z.eqb_refl, orb_true_r. reflexivity.
Qed.

Lemma SubVec_Ok (recv a b : list float64) :
  len a = len b -> len recv = len a -> SubVec recv a b = Ok (zip_with fsub a b).
Proof.
  intros Hab Hr. unfold SubVec. rewrite Hab, Z.eqb_refl. simpl require_shape.
  rewrite bind_Ok_l, reuse_vec_same by congruence. reflexivity.
Qed.

Lemma MulElemVec_Ok (recv a b : list float64) :
  len a = len b -> len recv = len a -> MulElemVec recv a b = Ok (zip_with fmul a b).
Proof.
  intros Hab Hr. unfold MulElemVec. rewrite Hab, Z.eqb_refl. simpl require_shape.
  rewrite bind_Ok_l, reuse_vec_same by congruence. reflexivity.
Qed.

Lemma AddScaledVec_Ok (recv a : list float64) alpha (b : list float64) :
  len a = len b -> len recv = len a ->
  AddScaledVec recv a alpha b = Ok (zip_with (fun x y => fadd x (fmul alpha y)) a b).
Proof.
  intros Hab Hr. unfold AddScaledVec. rewrite Hab, Z.eqb_refl. simpl require_shape.
  rewrite bind_Ok_l, reuse_vec_same by congruence. reflexivity.
Qed.

Lemma Outer_Ok recv alpha (x y : list float64) :
  0 < len x -> has_shape recv (len x) (len y) ->
  Outer recv alpha x y = Ok (map (fun xi => map (fun yj => fmul (fmul alpha xi) yj) y) x).
Proof.
  intros Hx Hrecv. unfold Outer. rewrite reuse_dense_same by assumption. reflexivity.
Qed.

Lemma Scale_Ok recv f a r c :
  0 < r -> has_shape a r c -> has_shape recv r c ->
  Scale recv f a = Ok (map (map (fmul f)) a).
Proof.
  intros Hr Ha Hrecv. unfold Scale.
  destruct (has_shape_dims _ _ _ Hr Ha) as (Hrows & Hcols & _).
  rewrite Hrows, Hcols, reuse_dense_same by assumption. reflexivity.
Qed.

Lemma AddDense_Ok recv a b r c :
  0 < r -> has_shape a r c -> has_shape b r c -> has_shape recv r c ->
  AddDense recv a b = Ok (zip_with (zip_with fadd) a b).
Proof.
  intros Hr Ha Hb Hrecv. unfold AddDense.
  destruct (has_shape_dims _ _ _ Hr Ha) as (Hra & Hca & _).
  destruct (has_shape_dims _ _ _ Hr Hb) as (Hrb & Hcb & _).
  rewrite Hra, Hca, Hrb, Hcb, !Z.eqb_refl. simpl require_shape.
  rewrite bind_Ok_l, reuse_dense_same by assumption. reflexivity.
Qed.

Lemma wf_network_shapes q :
  wf_network q ->
  has_shape (w1 q) (hiddenSize q) (inputSize q) /\
  has_shape (w2 q) (outputSize q) (hiddenSize q).
Proof.
  intros H. split.
  - rewrite <- (wf_w1_rows q H), <- (wf_w1_cols q H).
    apply dims_has_shape, (wf_w1_rect q H).
  - rewrite <- (wf_w2_rows q H), <- (wf_w2_cols q H).
    apply dims_has_shape, (wf_w2_rect q H).
Qed.

(** ** The constructor *)





(** ** The backward pass *)

(** A gonum operation that returns has returned its documented value. *)
Ltac gonum_value H :=
  unfold NewVecDense, NewDense, MulVec, AddVec, SubVec, MulElemVec, AddScaledVec,
    Outer, Scale, AddDense, require_shape, reuse_vec, reuse_dense, check_dim in H;
  repeat match type of H with
         | context [if ?b then _ else _] => destruct b
         end;
  simpl in H; try discriminate H; injection H as <-; reflexivity.


Lemma MulVec_value recv a b (v : list float64) :
  MulVec recv a b = Ok v -> v = map (fun r => dot r b) a.
Proof. intros H. gonum_value H. Qed.




Lemma Outer_value recv alpha x y (m : list (list float64)) :
  Outer recv alpha x y = Ok m ->
  m = map (fun xi => map (fun yj => fmul (fmul alpha xi) yj) y) x.
Proof. intros H. gonum_value H. Qed.




Ltac split_bind H :=
  let x := fresh "x" in
  let Hx := fresh "Hx" in
  apply bind_Ok in H as (x & Hx & H).



(** On inputs of the right lengths [Backward] does not panic and keeps
    the shapes of the network. *)

Section BackwardShapes.
Variable q : QNetwork.
Hypothesis Hwf : wf_network q.
Variables state prediction target : list float64.
Hypothesis Hstate : len state = inputSize q.
Hypothesis Hprediction : len prediction = outputSize q.
Hypothesis Htarget : len target = outputSize q.

Lemma Backward_gradients_Ok :
  exists g, Backward_gradients q state prediction target = Ok g /\
    has_shape (dW2 g) (outputSize q) (hiddenSize q) /\
    has_shape (dW1 g) (hiddenSize q) (inputSize q) /\
    len (dB2 g) = outputSize q /\ len (dB1 g) = hiddenSize q.
Proof using Hwf Hstate Hprediction Htarget.
  pose proof (len_first_layer q Hwf state) as Hfirst.
  destruct (wf_network_shapes q Hwf) as [Hw1 Hw2].
  pose proof Hwf as [Hin Hhid Hout Hw1r Hw1c Hw1rect Hb1 Hw2r Hw2c Hw2rect Hb2].
  assert (Hh : len (map (activation q) (first_layer q state)) = hiddenSize q)
    by (rewrite len_map; exact Hfirst).
  assert (HdOut : len (zip_with fsub prediction target) = outputSize q)
    by (rewrite len_zip_with; congruence).
  destruct (has_shape_dims _ _ _ Hhid (has_shape_T _ _ _ Hout Hw2))
    as (HTrows & HTcols & _).
  assert (Hback : len (map (fun r => dot r (zip_with fsub prediction target)) (T (w2 q)))
                  = hiddenSize q) by (rewrite len_map; exact HTrows).
  assert (Hderiv : len (applyDerivative (map (activation q) (first_layer q state))
                          (activation q)) = hiddenSize q)
    by (rewrite applyDerivative_map, len_map; exact Hh).
  assert (HdH : len (zip_with fmul
                      (map (fun r => dot r (zip_with fsub prediction target)) (T (w2 q)))
                      (applyDerivative (map (activation q) (first_layer q state))
                         (activation q))) = hiddenSize q)
    by (rewrite len_zip_with; congruence).
  unfold Backward_gradients.
  rewrite !NewVecDense_data, !bind_Ok_l by lia.
  rewrite (hidden_layer_Ok q Hwf state Hstate), bind_Ok_l.
  rewrite (NewVecDense_nil (outputSize q)), bind_Ok_l by assumption.
  rewrite SubVec_Ok, bind_Ok_l; [|congruence|rewrite len_replicate; lia].
  rewrite (NewDense_Ok (outputSize q)), bind_Ok_l by assumption.
  rewrite Outer_Ok, bind_Ok_l;
    [|lia|rewrite HdOut, Hh; apply has_shape_replicate; lia].
  rewrite (NewVecDense_nil (hiddenSize q)), bind_Ok_l by assumption.
  rewrite MulVec_Ok, bind_Ok_l; [|congruence|rewrite len_replicate; lia].
  rewrite MulElemVec_Ok, bind_Ok_l; [|congruence|congruence].
  rewrite (NewDense_Ok (hiddenSize q)), bind_Ok_l by assumption.
  rewrite Outer_Ok, bind_Ok_l;
    [|lia|rewrite HdH, Hstate; apply has_shape_replicate; lia].
  eexists. split; [reflexivity|]. cbn [dW2 dW1 dB2 dB1].
  split; [apply has_shape_outer; assumption|].
  split; [apply has_shape_outer; assumption|].
  split; assumption.
Qed.

Lemma Backward_Ok (lr : float64) :
  exists q', Backward q state prediction target lr = Ok q' /\ wf_network q'.
Proof using Hwf Hstate Hprediction Htarget.
  destruct Backward_gradients_Ok as (g & Hg & HdW2 & HdW1 & HdB2 & HdB1).
  destruct (wf_network_shapes q Hwf) as [Hw1 Hw2].
  pose proof Hwf as [Hin Hhid Hout Hw1r Hw1c Hw1rect Hb1 Hw2r Hw2c Hw2rect Hb2].
  unfold Backward. rewrite Hg, bind_Ok_l.
  rewrite (Scale_Ok _ _ _ _ _ Hout HdW2 Hw2), bind_Ok_l.
  pose proof (has_shape_map (fmul (fneg lr)) _ _ _ HdW2) as Hs2.
  rewrite (AddDense_Ok _ _ _ _ _ Hout Hs2 HdW2 Hs2), bind_Ok_l.
  rewrite (AddScaledVec_Ok (b2 q)), bind_Ok_l by congruence.
  rewrite (Scale_Ok _ _ _ _ _ Hhid HdW1 Hw1), bind_Ok_l.
  pose proof (has_shape_map (fmul (fneg lr)) _ _ _ HdW1) as Hs1.
  rewrite (AddDense_Ok _ _ _ _ _ Hhid Hs1 HdW1 Hs1), bind_Ok_l.
  rewrite (AddScaledVec_Ok (b1 q)), bind_Ok_l by congruence.
  eexists. split; [reflexivity|].
  destruct (has_shape_dims _ _ _ Hout (has_shape_zip_with fadd _ _ _ _ Hs2 HdW2))
    as (? & ? & ?).
  destruct (has_shape_dims _ _ _ Hhid (has_shape_zip_with fadd _ _ _ _ Hs1 HdW1))
    as (? & ? & ?).
  constructor; cbn [inputSize hiddenSize outputSize w1 b1 w2 b2]; try assumption.
  - rewrite len_zip_with; congruence.
  - rewrite len_zip_with; congruence.
Qed.
End BackwardShapes.

(** C1: the descent rule [p <- p - learningRate * dLoss/dp] fails on the
    two weight matrices.  On the network with [w1 = 1], [w2 = 2], zero
    biases and the rectifier, with state [[1]], its own prediction [[2]],
    target [[1]] and [learningRate = 0], [Backward] returns with [w2]
    replaced by its gradient [1] and [w1] replaced by its gradient, where
    the rule keeps [w2 = 2] and [w1 = 1]; only the biases are unchanged. *)
Theorem Backward_zero_rate_rewrites_weights :
  let q := tiny_network 1 2 in
  Predict q [f64 1] = Ok [f64 2] /\
  exists q' g,
    Backward_gradients q [f64 1] [f64 2] [f64 1] = Ok g /\
    Backward q [f64 1] [f64 2] [f64 1] fzero = Ok q' /\
    w2 q = [[f64 2]] /\ dW2 g = [[f64 1]] /\
    w2 q' = [[f64 1]] /\
    spec_descent_dense fzero (w2 q) (dW2 g) = [[f64 2]] /\
    w1 q = [[f64 1]] /\ w1 q' = dW1 g /\ w1 q' <> w1 q /\
    spec_descent_dense fzero (w1 q) (dW1 g) = [[f64 1]] /\
    b1 q' = b1 q /\ b2 q' = b2 q /\
    spec_descent_vec fzero (b1 q) (dB1 g) = b1 q' /\
    spec_descent_vec fzero (b2 q) (dB2 g) = b2 q'.
Proof.
  cbv zeta. split; [reflexivity|].
  eexists. eexists.
  split; [vm_compute; reflexivity|].
  split; [vm_compute; reflexivity|].
  cbn [w1 w2 b1 b2 dW1 dW2 dB1 dB2].
  repeat (split; [reflexivity|]).
  split; [discriminate|].
  repeat split.
Qed.

(** C2: the derivative is not taken at the values before the activation.
    On the network with [w1 = 1], [w2 = 1], zero biases and the
    rectifier, with state [[-1]] the hidden unit is [-1] before and [0]
    after the activation; the finite difference is [0] at [-1] and [1/2]
    at [0].  With output error [[1]], [Backward] computes the hidden error
    [[1/2]], where the derivative at the pre-activation value gives
    [[0]]. *)
Theorem Backward_derivative_at_activated_values :
  let q := tiny_network 1 1 in
  let state := [f64 (-1)] in
  pre_activation q state = Ok [f64 (-1)] /\
  hidden_layer q state = Ok [fzero] /\
  Predict q state = Ok [fzero] /\
  finite_difference ReLU (f64 (-1)) = fzero /\
  finite_difference ReLU fzero = fdiv fone ftwo /\
  exists g,
    Backward_gradients q state [fzero] [f64 (-1)] = Ok g /\
    dOut g = [f64 1] /\
    dH g = [fdiv fone ftwo] /\
    spec_hidden_error q state (dOut g) = Ok [fzero] /\
    Ok (dH g) <> spec_hidden_error q state (dOut g).
Proof.
  cbv zeta. repeat (split; [reflexivity|]).
  eexists. split; [vm_compute; reflexivity|].
  cbn [dOut dH].
  repeat (split; [reflexivity|]).
  vm_compute. discriminate.
Qed.

(** The step of the finite difference is the binary64 number nearest to
    [1/10000], and the divisor [2 * h] is exact. *)
Lemma step_h_value :
  step_h = fdiv fone (f64 10000) /\
  fmul ftwo step_h = S754_finite false 7378697629483821 (-65).
Proof. split; reflexivity. Qed.

(** ** Train *)

Lemma copy_same_length {A} (dst src : list A) :
  length dst = length src -> copy dst src = src.
Proof.
  intros H. unfold copy. rewrite H, Nat.min_id, firstn_all.
  rewrite <- H, drop_all. apply app_nil_r.
Qed.

(** The target [Train] builds: the next state's values with the entry at
    [action] overwritten once, or twice when the transition is not
    terminal. *)
Lemma Train_target_value (d : DQN) (nextState : list float64) (action reward : Z)
    (done : bool) (nextQ : list float64) (maxNextQ : float64) :
  Predict (qNetwork d) nextState = Ok nextQ ->
  Max nextQ = Ok maxNextQ ->
  0 <= action < len nextQ ->
  Train_target d nextState action reward done =
    Ok (if done then <[Z.to_nat action := float64_of_int reward]> nextQ
        else <[Z.to_nat action :=
                 fadd (float64_of_int reward) (fmul (gamma d) maxNextQ)]>
               (<[Z.to_nat action := float64_of_int reward]> nextQ)).
Proof.
  intros Hnext Hmax Haction.
  assert (Hnat : (Z.to_nat action < length nextQ)%nat) by (unfold len in Haction; lia).
  unfold Train_target. rewrite Hnext, bind_Ok_l, Hmax, bind_Ok_l.
  unfold make. replace (len nextQ <? 0) with false
    by (symmetry; apply Z.ltb_ge; lia).
  rewrite bind_Ok_l, copy_same_length
    by (rewrite length_replicate; unfold len; lia).
  rewrite set_index_in_range, bind_Ok_l by exact Haction.
  destruct done; simpl negb; cbv iota; [reflexivity|].
  destruct (index_in_range (<[Z.to_nat action := float64_of_int reward]> nextQ) action)
    as (t & Ht & ->); [unfold len in *; rewrite length_insert; exact Haction|].
  rewrite list_lookup_insert_eq in Ht by exact Hnat. injection Ht as <-.
  rewrite bind_Ok_l. apply set_index_in_range.
  unfold len in *. rewrite length_insert. exact Haction.
Qed.

(** On a network of consistent shapes, states of the input length and an
    action below [outputSize], [Train] does not panic and leaves a
    network of the same shapes. *)
Lemma Train_Ok (d : DQN) (state nextState : list float64) (action reward : Z)
    (done : bool) :
  wf_network (qNetwork d) ->
  len state = inputSize (qNetwork d) ->
  len nextState = inputSize (qNetwork d) ->
  0 <= action < outputSize (qNetwork d) ->
  exists d', Train d state nextState action reward done = Ok d' /\
    wf_network (qNetwork d') /\
    replayBuffer d' = replayBuffer d /\ gamma d' = gamma d /\
    epsilon d' = epsilon d /\ learningRate d' = learningRate d.
Proof.
  intros Hwf Hstate Hnext Haction.
  pose proof (Predict_Ok _ Hwf _ Hnext) as HnextQ.
  pose proof (len_forward _ Hwf nextState) as HlenNext.
  destruct (Max_spec _ (forward_nonempty _ Hwf nextState)) as (maxNextQ & Hmax & _).
  unfold Train.
  rewrite (Train_target_value _ _ _ _ _ _ _ HnextQ Hmax), bind_Ok_l by lia.
  rewrite (Predict_Ok _ Hwf _ Hstate), bind_Ok_l.
  destruct (Backward_Ok _ Hwf state (forward (qNetwork d) state)
              (if done
               then <[Z.to_nat action := float64_of_int reward]>
                      (forward (qNetwork d) nextState)
               else <[Z.to_nat action :=
                        fadd (float64_of_int reward) (fmul (gamma d) maxNextQ)]>
                      (<[Z.to_nat action := float64_of_int reward]>
                         (forward (qNetwork d) nextState)))
              Hstate (len_forward _ Hwf state)) with (lr := learningRate d)
    as (q' & Hq' & Hwf').
  { unfold len in *. destruct done; rewrite ?length_insert; exact HlenNext. }
  rewrite Hq', bind_Ok_l. eexists. split; [reflexivity|].
  cbn. split; [exact Hwf'|]. repeat split.
Qed.

(** C3: when [Predict] succeeds on the next state and [action] indexes
    its result, the target [Train] hands to [Backward] has the length of
    [Predict(nextState)], agrees with it at every index but [action], and
    holds at [action] the reward if [done], and the reward plus
    [gamma * Max(Predict(nextState))] otherwise, where [Max] returns an
    entry of [Predict(nextState)] that no entry exceeds. *)
Theorem Train_target_bellman (d : DQN) (state nextState : list float64)
    (action reward : Z) (done : bool) (nextQ : list float64)
    (Hnext : Predict (qNetwork d) nextState = Ok nextQ)
    (Haction : 0 <= action < len nextQ) :
  exists maxNextQ target,
    Max nextQ = Ok maxNextQ /\
    maxNextQ ∈ nextQ /\ (forall y, y ∈ nextQ -> fgt y maxNextQ = false) /\
    Train_target d nextState action reward done = Ok target /\
    Train d state nextState action reward done =
      (currentQ ← Predict (qNetwork d) state;
       q' ← Backward (qNetwork d) state currentQ target (learningRate d);
       Ok {| qNetwork := q'; replayBuffer := replayBuffer d; gamma := gamma d;
             epsilon := epsilon d; learningRate := learningRate d |}) /\
    len target = len nextQ /\
    (forall j, j <> Z.to_nat action -> target !! j = nextQ !! j) /\
    target !! Z.to_nat action =
      Some (if done then float64_of_int reward
            else fadd (float64_of_int reward) (fmul (gamma d) maxNextQ)).
Proof.
  assert (Hne : nextQ <> []).
  { intros ->. unfold len in Haction. simpl in Haction. lia. }
  destruct (Max_spec nextQ Hne) as (maxNextQ & Hmax & Hin & Hall).
  assert (Hnat : (Z.to_nat action < length nextQ)%nat) by (unfold len in Haction; lia).
  pose proof (Train_target_value d nextState action reward done nextQ maxNextQ
                Hnext Hmax Haction) as Htarget.
  exists maxNextQ. eexists. split; [exact Hmax|].
  split; [exact Hin|]. split; [exact Hall|]. split; [exact Htarget|].
  split; [unfold Train; rewrite Htarget, bind_Ok_l; reflexivity|].
  split; [|split].
  - unfold len. destruct done; rewrite ?length_insert; reflexivity.
  - intros j Hj. destruct done; rewrite ?list_lookup_insert_ne by congruence; reflexivity.
  - destruct done; apply list_lookup_insert_eq; rewrite ?length_insert; exact Hnat.
Qed.

Lemma Train_target_bellman_witness :
  Predict (qNetwork (agent two_output_network fzero)) [fone] = Ok [fzero; fone] /\
  0 <= 0 < len [fzero; fone] /\
  exists maxNextQ target,
    Max [fzero; fone] = Ok maxNextQ /\
    Train_target (agent two_output_network fzero) [fone] 0 5 false = Ok target /\
    target !! 0%nat = Some (fadd (f64 5) (fmul fone maxNextQ)).
Proof.
  assert (Hp : Predict (qNetwork (agent two_output_network fzero)) [fone] = Ok [fzero; fone])
    by reflexivity.
  assert (Ha : 0 <= 0 < len [fzero; fone]) by (unfold len; simpl; lia).
  split; [exact Hp|]. split; [exact Ha|].
  destruct (Train_target_bellman (agent two_output_network fzero) [fone] [fone]
              0 5 false [fzero; fone] Hp Ha)
    as (m & t & Hm & _ & _ & Ht & _ & _ & _ & Hat).
  exists m, t. split; [exact Hm|]. split; [exact Ht | exact Hat].
Defined.

(** ** The epsilon-greedy policy *)

Lemma two_output_network_wf : wf_network two_output_network.
Proof.
  constructor; simpl; try lia; try reflexivity;
    unfold rectangular; repeat constructor.
Qed.

(** With an [epsilon] equal to zero the draw of [rand.Float64] never
    selects the random branch. *)
Lemma EpsilonGreedyPolicy_greedy_branch (d : DQN) (state : list float64)
    (numActions : Z) (g : RandSource) :
  SFeqb (epsilon d) fzero = true -> rand_ok g ->
  EpsilonGreedyPolicy d state numActions g =
    Predict (qNetwork d) state ≫= Argmax.
Proof.
  intros Heps [Hfloat _]. unfold EpsilonGreedyPolicy, Float64.
  destruct (Hfloat 0%nat) as [Hge _].
  rewrite (flt_zero_epsilon _ _ Heps Hge). reflexivity.
Qed.

(** C4: with [epsilon] equal to zero, on a state of the input length the
    policy returns the same action whatever the random source and
    [numActions] are: the result of [Argmax] on [Predict(state)].  That
    index [a] holds a value [m] that no value exceeds and that no value
    at a lower index equals or exceeds; when no value is NaN, [m] is the
    maximum and every value at a lower index is strictly smaller. *)
Theorem EpsilonGreedyPolicy_zero_epsilon (d : DQN) (state : list float64)
    (numActions : Z) (g : RandSource)
    (Hwf : wf_network (qNetwork d))
    (Hstate : len state = inputSize (qNetwork d))
    (Heps : SFeqb (epsilon d) fzero = true)
    (Hg : rand_ok g) :
  exists qValues a m,
    Predict (qNetwork d) state = Ok qValues /\
    Argmax qValues = Ok a /\
    EpsilonGreedyPolicy d state numActions g = Ok a /\
    (forall numActions' g', rand_ok g' ->
       EpsilonGreedyPolicy d state numActions' g' = Ok a) /\
    0 <= a < len qValues /\
    qValues !! Z.to_nat a = Some m /\
    (forall y, y ∈ qValues -> fgt y m = false) /\
    (forall j y, (j < Z.to_nat a)%nat -> qValues !! j = Some y -> fle m y = false) /\
    ((forall y, y ∈ qValues -> is_nan y = false) ->
       (forall y, y ∈ qValues -> fle y m = true) /\
       (forall j y, (j < Z.to_nat a)%nat -> qValues !! j = Some y -> flt y m = true)).
Proof.
  pose proof (Predict_Ok _ Hwf _ Hstate) as Hp.
  destruct (Argmax_spec _ (forward_nonempty _ Hwf state))
    as (a & m & Ha & Hrange & Hm & Hall & Hbefore).
  assert (Hpolicy : forall n g', rand_ok g' -> EpsilonGreedyPolicy d state n g' = Ok a).
  { intros n g' Hg'. rewrite EpsilonGreedyPolicy_greedy_branch by assumption.
    rewrite Hp, bind_Ok_l. exact Ha. }
  exists (forward (qNetwork d) state), a, m.
  split; [exact Hp|]. split; [exact Ha|]. split; [apply Hpolicy, Hg|].
  split; [exact Hpolicy|]. split; [exact Hrange|]. split; [exact Hm|].
  split; [exact Hall|]. split; [exact Hbefore|].
  intros Hnan.
  assert (Hmn : is_nan m = false) by (apply Hnan, list_elem_of_lookup; eauto).
  split.
  - intros y Hy. apply not_flt_fle; [exact Hmn | apply Hnan, Hy | apply Hall, Hy].
  - intros j y Hj Hy. apply not_fle_flt; [exact Hmn | | apply (Hbefore j y Hj Hy)].
    apply Hnan, list_elem_of_lookup. eauto.
Qed.

Lemma EpsilonGreedyPolicy_zero_epsilon_witness :
  wf_network two_output_network /\
  len [fone] = inputSize two_output_network /\
  SFeqb fzero fzero = true /\
  rand_ok zero_source /\
  exists qValues a,
    Predict two_output_network [fone] = Ok qValues /\
    Argmax qValues = Ok a /\
    EpsilonGreedyPolicy (agent two_output_network fzero) [fone] 2 zero_source = Ok a.
Proof.
  split; [exact two_output_network_wf|]. split; [reflexivity|].
  split; [reflexivity|]. split; [exact zero_source_ok|].
  destruct (EpsilonGreedyPolicy_zero_epsilon (agent two_output_network fzero) [fone] 2
              zero_source two_output_network_wf eq_refl eq_refl zero_source_ok)
    as (qv & a & m & Hp & Ha & Hpol & _).
  exists qv, a. split; [exact Hp|]. split; [exact Ha | exact Hpol].
Defined.

(** C5, as the specification states it, fails: a network with two
    outputs asked for one of [numActions = 1] actions answers 1 on the
    greedy branch. *)
Lemma EpsilonGreedyPolicy_outside_numActions :
  wf_network two_output_network /\
  len [fone] = inputSize two_output_network /\
  0 < 1 /\
  rand_ok zero_source /\
  EpsilonGreedyPolicy (agent two_output_network fzero) [fone] 1 zero_source = Ok 1 /\
  ~ (0 <= 1 < 1).
Proof.
  split; [exact two_output_network_wf|]. split; [reflexivity|].
  split; [lia|]. split; [exact zero_source_ok|]. split; [reflexivity | lia].
Qed.

(** C5, amended: on a state of the input length and with
    [numActions > 0] the policy returns an index; on the random branch it
    lies in [[0, numActions)], on the greedy branch in
    [[0, outputSize)], hence in [[0, numActions)] on both branches when
    [outputSize <= numActions]. *)
Theorem EpsilonGreedyPolicy_range (d : DQN) (state : list float64)
    (numActions : Z) (g : RandSource)
    (Hwf : wf_network (qNetwork d))
    (Hstate : len state = inputSize (qNetwork d))
    (Hnum : 0 < numActions)
    (Hg : rand_ok g) :
  exists a,
    EpsilonGreedyPolicy d state numActions g = Ok a /\
    (flt (Float64 g 0) (epsilon d) = true -> 0 <= a < numActions) /\
    (flt (Float64 g 0) (epsilon d) = false -> 0 <= a < outputSize (qNetwork d)) /\
    (outputSize (qNetwork d) <= numActions -> 0 <= a < numActions).
Proof.
  unfold EpsilonGreedyPolicy.
  destruct (flt (Float64 g 0) (epsilon d)) eqn:E.
  - unfold Intn. replace (numActions <=? 0) with false
      by (symmetry; apply Z.leb_gt; lia).
    destruct Hg as [_ Hint]. specialize (Hint 0%nat numActions Hnum).
    exists (rIntn g 0 numActions). split; [reflexivity|].
    split; [intros _; exact Hint|]. split; [discriminate | intros _; exact Hint].
  - rewrite (Predict_Ok _ Hwf _ Hstate), bind_Ok_l.
    destruct (Argmax_spec _ (forward_nonempty _ Hwf state)) as (a & m & Ha & Hrange & _).
    rewrite (len_forward _ Hwf) in Hrange.
    exists a. split; [exact Ha|]. split; [discriminate|].
    split; [intros _; exact Hrange | lia].
Qed.

Lemma EpsilonGreedyPolicy_range_witness :
  wf_network two_output_network /\
  len [fone] = inputSize two_output_network /\
  0 < 2 /\
  rand_ok zero_source /\
  exists a, EpsilonGreedyPolicy (agent two_output_network fone) [fone] 2 zero_source = Ok a /\
            0 <= a < 2.
Proof.
  split; [exact two_output_network_wf|]. split; [reflexivity|].
  split; [lia|]. split; [exact zero_source_ok|].
  destruct (EpsilonGreedyPolicy_range (agent two_output_network fone) [fone] 2
              zero_source two_output_network_wf eq_refl ltac:(lia) zero_source_ok)
    as (a & Ha & _ & _ & Hin).
  exists a. split; [exact Ha | apply Hin; simpl; lia].
Defined.

(** * Further properties

    The rest of the package: the constructors, the failure modes of the
    network operations, the loss, the serializer. *)

(** ** Serialization *)

(** A loop that writes [get i] at index [i] of a slice of the length of
    [src] leaves [src] when [get] reads [src]. *)
Lemma fill_loop {A} (z : A) (src : list A) (body : nat -> list A -> result (list A))
    (get : nat -> result A) :
  (forall i acc, body i acc = get i ≫= fun v => set_index acc (Z.of_nat i) v) ->
  (forall i x, src !! i = Some x -> get i = Ok x) ->
  for_upto_r (length src) body (replicate (length src) z) = Ok src.
Proof.
  intros Hbody Hget.
  assert (H : forall k, (k <= length src)%nat ->
            for_upto_r k body (replicate (length src) z)
            = Ok (take k src ++ replicate (length src - k) z)).
  { induction k as [|k IH]; intros Hk.
    - unfold for_upto_r. simpl. rewrite Nat.sub_0_r. reflexivity.
    - rewrite for_upto_r_S, IH, bind_Ok_l, Hbody by lia.
      destruct (lookup_lt_is_Some_2 src k) as [x Hx]; [lia|].
      rewrite (Hget k x Hx), bind_Ok_l.
      assert (Hlen : length (take k src) = k) by (rewrite length_take; lia).
      rewrite set_index_in_range
        by (unfold len; rewrite length_app, length_replicate; lia).
      rewrite Nat2Z.id, insert_app_r_alt by lia.
      rewrite Hlen, Nat.sub_diag.
      replace (length src - k)%nat with (S (length src - S k)) by lia.
      simpl. rewrite (take_S_r _ _ _ Hx), <- app_assoc. reflexivity. }
  rewrite H by lia. rewrite firstn_all, Nat.sub_diag. simpl. rewrite app_nil_r.
  reflexivity.
Qed.

Lemma vecToSlice_copy (v : list float64) : vecToSlice v = Ok v.
Proof.
  unfold vecToSlice, make.
  replace (len v <? 0) with false by (symmetry; apply Z.ltb_ge, len_nonneg).
  rewrite bind_Ok_l. unfold len at 1 2. rewrite Nat2Z.id.
  apply fill_loop with (get := fun i => AtVec v (Z.of_nat i)); [reflexivity|].
  intros i x Hx. unfold AtVec.
  pose proof (lookup_lt_Some _ _ _ Hx) as Hlt.
  replace (Z.of_nat i <? 0) with false by (symmetry; apply Z.ltb_ge; lia).
  replace (len v <=? Z.of_nat i) with false
    by (symmetry; apply Z.leb_gt; unfold len; lia).
  apply index_Ok, Hx.
Qed.

Lemma matToSlices_copy (m : list (list float64)) :
  rectangular m -> matToSlices m = Ok m.
Proof.
  intros Hrect. unfold matToSlices, make.
  replace (rows m <? 0) with false by (symmetry; apply Z.ltb_ge, len_nonneg).
  rewrite bind_Ok_l. unfold rows, len at 1 2. rewrite Nat2Z.id.
  apply fill_loop with
    (get := fun i =>
       row ← (if cols m <? 0 then Panic MakeLenOutOfRange
              else Ok (replicate (Z.to_nat (cols m)) fzero));
       for_upto_r (Z.to_nat (cols m))
         (fun j row => v ← At m (Z.of_nat i) (Z.of_nat j); set_index row (Z.of_nat j) v)
         row).
  - intros i acc. destruct (cols m <? 0); reflexivity.
  - intros i row Hrow.
    assert (Hc : len row = cols m).
    { unfold rectangular in Hrect.
      exact (proj1 (Forall_lookup _ _) Hrect i row Hrow). }
    replace (cols m <? 0) with false
      by (symmetry; apply Z.ltb_ge; rewrite <- Hc; apply len_nonneg).
    rewrite bind_Ok_l, <- Hc. unfold len. rewrite Nat2Z.id.
    apply fill_loop with (get := fun j => At m (Z.of_nat i) (Z.of_nat j)); [reflexivity|].
    intros j x Hx. unfold At, rows.
    pose proof (lookup_lt_Some _ _ _ Hrow) as Hi.
    pose proof (lookup_lt_Some _ _ _ Hx) as Hj.
    replace (Z.of_nat i <? 0) with false by (symmetry; apply Z.ltb_ge; lia).
    replace (len m <=? Z.of_nat i) with false
      by (symmetry; apply Z.leb_gt; unfold len; lia).
    replace (Z.of_nat j <? 0) with false by (symmetry; apply Z.ltb_ge; lia).
    replace (cols m <=? Z.of_nat j) with false
      by (symmetry; apply Z.leb_gt; rewrite <- Hc; unfold len; lia).
    simpl. rewrite (index_Ok _ _ _ Hrow), bind_Ok_l. apply index_Ok, Hx.
Qed.

Lemma append_rows_concat (s : list (list float64)) : forall acc,
  fold_left (fun data row => data ++ row) s acc = acc ++ concat s.
Proof.
  induction s as [|row s IH]; intros acc; simpl.
  - rewrite app_nil_r. reflexivity.
  - rewrite IH, <- app_assoc. reflexivity.
Qed.

Lemma reshape_concat (m : list (list float64)) (c : nat) :
  Forall (fun row => length row = c) m ->
  reshape (length m) c (concat m) = m.
Proof.
  induction 1 as [|row m Hrow _ IH]; simpl; [reflexivity|].
  rewrite take_app_length' by (symmetry; exact Hrow).
  rewrite drop_app_length' by (symmetry; exact Hrow).
  rewrite IH. reflexivity.
Qed.

Lemma length_concat_rows (m : list (list float64)) (c : nat) :
  Forall (fun row => length row = c) m -> length (concat m) = (length m * c)%nat.
Proof.
  induction 1 as [|row m Hrow _ IH]; simpl; [reflexivity|].
  rewrite length_app, IH, Hrow. reflexivity.
Qed.

Lemma reshape_shape (r c : nat) : forall data,
  length data = (r * c)%nat ->
  length (reshape r c data) = r /\
  Forall (fun row => length row = c) (reshape r c data) /\
  concat (reshape r c data) = data.
Proof.
  induction r as [|r IH]; intros data Hlen; simpl.
  - split; [reflexivity|]. split; [constructor|].
    destruct data; [reflexivity | simpl in Hlen; lia].
  - destruct (IH (drop c data)) as (Hl & Hall & Hcat).
    { rewrite length_drop. lia. }
    split; [rewrite Hl; reflexivity|]. split.
    + constructor; [rewrite length_take; lia | exact Hall].
    + rewrite Hcat. apply take_drop.
Qed.

Lemma NewDenseData_Ok (r c : Z) (data : list float64) :
  0 < r -> 0 < c -> len data = r * c ->
  NewDenseData r c data = Ok (reshape (Z.to_nat r) (Z.to_nat c) data).
Proof.
  intros Hr Hc Hlen. unfold NewDenseData.
  rewrite !check_dim_pos by assumption. rewrite !bind_Ok_l, Hlen, Z.eqb_refl.
  reflexivity.
Qed.

Lemma has_shape_lengths (m : list (list float64)) (r c : Z) :
  has_shape m r c <-> len m = r /\ Forall (fun row => length row = Z.to_nat c) m /\ (m = [] \/ 0 <= c).
Proof.
  unfold has_shape, len. split.
  - intros [Hr Hall]. split; [exact Hr|]. split.
    + eapply Forall_impl; [exact Hall|]. simpl. intros row Hrow. lia.
    + destruct Hall as [|row m Hrow _]; [left; reflexivity | right; lia].
  - intros (Hr & Hall & Hc). split; [exact Hr|].
    destruct Hc as [->|Hc]; [constructor|].
    eapply Forall_impl; [exact Hall|]. simpl. intros row Hrow. lia.
Qed.

(** What [slicesToMat] does with each kind of input. *)
Lemma slicesToMat_value (s0 : list float64) (rest : list (list float64)) :
  s0 <> [] ->
  len (concat (s0 :: rest)) = len (s0 :: rest) * len s0 ->
  slicesToMat (s0 :: rest) =
    Ok (Some (reshape (length (s0 :: rest)) (length s0) (concat (s0 :: rest)))).
Proof.
  intros Hne Htotal. unfold slicesToMat.
  replace (len (s0 :: rest) =? 0) with false
    by (symmetry; apply Z.eqb_neq; unfold len; simpl; lia).
  change (index (s0 :: rest) 0) with (Ok s0). rewrite bind_Ok_l.
  rewrite append_rows_concat, app_nil_l.
  rewrite NewDenseData_Ok; [|unfold len; simpl; lia| |exact Htotal].
  - rewrite bind_Ok_l. unfold len. rewrite !Nat2Z.id. reflexivity.
  - destruct s0; [congruence | unfold len; simpl; lia].
Qed.

Lemma slicesToMat_rectangular (m : list (list float64)) (r c : Z) :
  0 < r -> 0 < c -> has_shape m r c -> slicesToMat m = Ok (Some m).
Proof.
  intros Hr Hc Hshape.
  apply has_shape_lengths in Hshape as (Hlen & Hall & _).
  destruct m as [|s0 rest]; [unfold len in Hlen; simpl in Hlen; lia|].
  assert (Hs0 : length s0 = Z.to_nat c) by (inversion Hall; assumption).
  rewrite slicesToMat_value.
  - rewrite Hs0, reshape_concat by exact Hall. reflexivity.
  - intros ->. simpl in Hs0. lia.
  - unfold len. rewrite (length_concat_rows _ _ Hall), Hs0. lia.
Qed.

Lemma sliceToVec_nonempty (v : list float64) : v <> [] -> sliceToVec v = Ok (Some v).
Proof.
  intros Hne. unfold sliceToVec.
  assert (0 < len v) by (destruct v; [congruence | unfold len; simpl; lia]).
  replace (len v =? 0) with false by (symmetry; apply Z.eqb_neq; lia).
  rewrite NewVecDense_data by assumption. reflexivity.
Qed.

Lemma Save_struct_Ok (d : DQN) :
  rectangular (w1 (qNetwork d)) -> rectangular (w2 (qNetwork d)) ->
  Save_struct d =
    Ok {| W1 := w1 (qNetwork d); W2 := w2 (qNetwork d);
          B1 := b1 (qNetwork d); B2 := b2 (qNetwork d);
          Gamma := gamma d; Epsilon := epsilon d; LearningRate := learningRate d |}.
Proof.
  intros H1 H2. unfold Save_struct.
  rewrite !matToSlices_copy by assumption. rewrite !bind_Ok_l.
  rewrite !vecToSlice_copy. reflexivity.
Qed.

Lemma len_pos_nonempty {A} (l : list A) : 0 < len l -> l <> [].
Proof. intros H ->. unfold len in H. simpl in H. lia. Qed.

Lemma Load_struct_Ok (d2 : DQN) (q : QNetwork) (g e lr : float64) :
  wf_network q ->
  Load_struct d2 {| W1 := w1 q; W2 := w2 q; B1 := b1 q; B2 := b2 q;
                    Gamma := g; Epsilon := e; LearningRate := lr |} =
    Ok (Some {| qNetwork :=
                  {| inputSize := inputSize (qNetwork d2);
                     hiddenSize := hiddenSize (qNetwork d2);
                     outputSize := outputSize (qNetwork d2);
                     w1 := w1 q; b1 := b1 q; w2 := w2 q; b2 := b2 q;
                     activation := activation (qNetwork d2) |};
                replayBuffer := replayBuffer d2;
                gamma := g; epsilon := e; learningRate := lr |}).
Proof.
  intros Hwf. destruct (wf_network_shapes q Hwf) as [Hw1 Hw2].
  pose proof Hwf as [Hin Hhid Hout _ _ _ Hb1 _ _ _ Hb2].
  unfold Load_struct, Load_restore. cbn [W1 W2 B1 B2 Gamma Epsilon LearningRate].
  rewrite (slicesToMat_rectangular _ _ _ Hhid Hin Hw1), bind_Ok_l.
  rewrite (slicesToMat_rectangular _ _ _ Hout Hhid Hw2), bind_Ok_l.
  rewrite !sliceToVec_nonempty by (apply len_pos_nonempty; lia).
  reflexivity.
Qed.

(** ** When the network operations succeed *)

Lemma is_Ok_not_Panic {A} (r : result A) : is_Panic r <-> ~ is_Ok r.
Proof.
  split.
  - intros [p ->] [a Ha]. discriminate.
  - intros H. destruct r as [a|p]; [destruct H; eexists; reflexivity | eexists; reflexivity].
Qed.

Lemma check_dim_inv (n : Z) : check_dim n = Ok tt -> 0 < n.
Proof.
  unfold check_dim. destruct (n <=? 0) eqn:E.
  - destruct (n =? 0); discriminate.
  - intros _. apply Z.leb_gt in E. exact E.
Qed.

Lemma NewVecDense_nil_inv (n : Z) (v : list float64) :
  NewVecDense n None = Ok v -> 0 < n /\ v = replicate (Z.to_nat n) fzero.
Proof.
  unfold NewVecDense. intros H. apply bind_Ok in H as ([] & Hdim & H).
  apply check_dim_inv in Hdim. injection H as <-. split; [exact Hdim | reflexivity].
Qed.

Lemma NewVecDense_data_inv (n : Z) (d v : list float64) :
  NewVecDense n (Some d) = Ok v -> 0 < n /\ len d = n /\ v = d.
Proof.
  unfold NewVecDense. intros H. apply bind_Ok in H as ([] & Hdim & H).
  apply check_dim_inv in Hdim. destruct (len d =? n) eqn:E; [|discriminate].
  apply Z.eqb_eq in E. injection H as <-. repeat split; assumption.
Qed.

Lemma reuse_vec_inv (recv : list float64) (n : Z) :
  reuse_vec recv n = Ok tt -> len recv = 0 \/ len recv = n.
Proof.
  unfold reuse_vec. destruct (len recv =? 0) eqn:E0; [apply Z.eqb_eq in E0; auto|].
  destruct (len recv =? n) eqn:En; [apply Z.eqb_eq in En; auto | discriminate].
Qed.

Lemma require_shape_inv (b : bool) : require_shape b = Ok tt -> b = true.
Proof. destruct b; [reflexivity | discriminate]. Qed.

Lemma MulVec_shape (recv : list float64) (a : list (list float64)) (b v : list float64) :
  MulVec recv a b = Ok v -> cols a = len b /\ (len recv = 0 \/ len recv = rows a).
Proof.
  unfold MulVec. intros H.
  apply bind_Ok in H as ([] & Hs & H). apply bind_Ok in H as ([] & Hr & _).
  apply require_shape_inv, Z.eqb_eq in Hs. apply reuse_vec_inv in Hr. auto.
Qed.

Lemma AddVec_shape (recv a b v : list float64) :
  AddVec recv a b = Ok v -> len a = len b /\ (len recv = 0 \/ len recv = len a).
Proof.
  unfold AddVec. intros H.
  apply bind_Ok in H as ([] & Hs & H). apply bind_Ok in H as ([] & Hr & _).
  apply require_shape_inv, Z.eqb_eq in Hs. apply reuse_vec_inv in Hr. auto.
Qed.

Lemma SubVec_shape (recv a b v : list float64) :
  SubVec recv a b = Ok v -> len a = len b /\ (len recv = 0 \/ len recv = len a).
Proof.
  unfold SubVec. intros H.
  apply bind_Ok in H as ([] & Hs & H). apply bind_Ok in H as ([] & Hr & _).
  apply require_shape_inv, Z.eqb_eq in Hs. apply reuse_vec_inv in Hr. auto.
Qed.

Lemma AddVec_value recv a b (v : list float64) :
  AddVec recv a b = Ok v -> v = zip_with fadd a b.
Proof. intros H. gonum_value H. Qed.

(** A first layer that returns has the shapes of the sizes. *)
Lemma pre_activation_inv (q : QNetwork) (x pre : list float64) :
  pre_activation q x = Ok pre ->
  0 < hiddenSize q /\ cols (w1 q) = len x /\ rows (w1 q) = hiddenSize q /\
  len (b1 q) = hiddenSize q /\ len pre = hiddenSize q.
Proof.
  unfold pre_activation. intros H.
  apply bind_Ok in H as (h0 & Hh0 & H). apply NewVecDense_nil_inv in Hh0 as [Hhid ->].
  apply bind_Ok in H as (h1 & Hh1 & H).
  pose proof (MulVec_shape _ _ _ _ Hh1) as [Hcols Hrecv].
  apply MulVec_value in Hh1 as ->.
  pose proof (AddVec_shape _ _ _ _ H) as [Hb1 _].
  apply AddVec_value in H as ->.
  rewrite len_replicate in Hrecv by lia. rewrite len_map in Hb1.
  assert (Hrows : rows (w1 q) = hiddenSize q) by lia.
  unfold rows in *. repeat split; try lia.
  rewrite len_zip_with; rewrite len_map; lia.
Qed.

Lemma Predict_inv (q : QNetwork) (state out : list float64) :
  Predict q state = Ok out ->
  len state = inputSize q /\ 0 < inputSize q /\ 0 < hiddenSize q /\ 0 < outputSize q /\
  rows (w1 q) = hiddenSize q /\ cols (w1 q) = inputSize q /\ len (b1 q) = hiddenSize q /\
  rows (w2 q) = outputSize q /\ cols (w2 q) = hiddenSize q /\ len (b2 q) = outputSize q /\
  len out = outputSize q.
Proof.
  unfold Predict. destruct (len state =? inputSize q) eqn:E; [|discriminate].
  apply Z.eqb_eq in E. simpl negb. cbv iota. intros H.
  apply bind_Ok in H as (x & Hx & H). apply NewVecDense_data_inv in Hx as (Hpos & _ & ->).
  apply bind_Ok in H as (h & Hh & H). unfold hidden_layer in Hh.
  apply bind_Ok in Hh as (pre & Hpre & Hh). injection Hh as <-.
  apply pre_activation_inv in Hpre as (Hhid & Hc1 & Hr1 & Hb1 & Hlpre).
  apply bind_Ok in H as (o0 & Ho0 & H). apply NewVecDense_nil_inv in Ho0 as [Hout ->].
  apply bind_Ok in H as (o1 & Ho1 & H).
  pose proof (MulVec_shape _ _ _ _ Ho1) as [Hc2 Hrecv].
  apply MulVec_value in Ho1 as ->.
  apply bind_Ok in H as (o2 & Ho2 & H). injection H as <-.
  pose proof (AddVec_shape _ _ _ _ Ho2) as [Hb2 _].
  apply AddVec_value in Ho2 as ->.
  rewrite len_replicate in Hrecv by lia.
  rewrite update_each_map, len_map in Hc2. rewrite len_map in Hb2.
  unfold rows in *.
  repeat split; try lia.
  rewrite len_zip_with; rewrite len_map; lia.
Qed.

Lemma Backward_gradients_inv (q : QNetwork) (state prediction target : list float64)
    (g : Gradients) :
  Backward_gradients q state prediction target = Ok g ->
  cols (w1 q) = len state /\ len prediction = outputSize q /\ len target = outputSize q.
Proof.
  unfold Backward_gradients. intros H.
  apply bind_Ok in H as (x & Hx & H). apply NewVecDense_data_inv in Hx as (_ & _ & ->).
  apply bind_Ok in H as (y & Hy & H). apply NewVecDense_data_inv in Hy as (_ & _ & ->).
  apply bind_Ok in H as (yHat & HyHat & H).
  apply NewVecDense_data_inv in HyHat as (_ & _ & ->).
  apply bind_Ok in H as (h & Hh & H). unfold hidden_layer in Hh.
  apply bind_Ok in Hh as (pre & Hpre & _).
  apply pre_activation_inv in Hpre as (_ & Hc1 & _).
  apply bind_Ok in H as (d0 & Hd0 & H). apply NewVecDense_nil_inv in Hd0 as [Hout ->].
  apply bind_Ok in H as (d1 & Hd1 & _).
  apply SubVec_shape in Hd1 as [Hpt Hrecv].
  rewrite len_replicate in Hrecv by lia. repeat split; lia.
Qed.

Lemma set_index_inv {A} (s : list A) (i : Z) (a : A) (s' : list A) :
  set_index s i a = Ok s' -> 0 <= i < len s.
Proof.
  unfold set_index. destruct (i <? 0) eqn:E1; [discriminate|].
  destruct (len s <=? i) eqn:E2; [discriminate|].
  intros _. apply Z.ltb_ge in E1. apply Z.leb_gt in E2. lia.
Qed.

Lemma set_index_out_of_range {A} (s : list A) (i : Z) (a : A) :
  ~ (0 <= i < len s) -> set_index s i a = Panic IndexOutOfRange.
Proof.
  intros H. unfold set_index.
  destruct (i <? 0) eqn:E1; [reflexivity|].
  destruct (len s <=? i) eqn:E2; [reflexivity|].
  apply Z.ltb_ge in E1. apply Z.leb_gt in E2. lia.
Qed.

(** ** Loss *)

Lemma Loss_rounds (predictions targets : list float64) :
  length predictions = length targets ->
  forall k, (k <= length predictions)%nat ->
  for_upto_r k
    (fun i loss =>
       p ← index predictions (Z.of_nat i);
       t ← index targets (Z.of_nat i);
       let diff := fsub p t in
       Ok (fadd loss (fmul diff diff)))
    fzero
  = Ok (squared_error_sum (take k predictions) (take k targets)).
Proof.
  intros Hlen. induction k as [|k IH]; intros Hk; [reflexivity|].
  rewrite for_upto_r_S, IH, bind_Ok_l by lia.
  destruct (lookup_lt_is_Some_2 predictions k) as [p Hp]; [lia|].
  destruct (lookup_lt_is_Some_2 targets k) as [t Ht]; [lia|].
  rewrite (index_Ok _ _ _ Hp), bind_Ok_l, (index_Ok _ _ _ Ht), bind_Ok_l.
  cbv zeta. unfold squared_error_sum.
  rewrite (take_S_r _ _ _ Hp), (take_S_r _ _ _ Ht).
  rewrite zip_with_app by (rewrite !length_take; lia).
  rewrite fold_left_app. reflexivity.
Qed.

Lemma Loss_value (q : QNetwork) (predictions targets : list float64) :
  len predictions = len targets ->
  Loss q predictions targets =
    Ok (fdiv (squared_error_sum predictions targets)
             (float64_of_int (len predictions))).
Proof.
  intros Hlen. unfold Loss. rewrite Hlen, Z.eqb_refl. simpl negb. cbv iota.
  assert (Hnat : length predictions = length targets) by (unfold len in Hlen; lia).
  rewrite (Loss_rounds _ _ Hnat) by lia. rewrite bind_Ok_l.
  rewrite firstn_all, Hnat, firstn_all, <- Hlen. reflexivity.
Qed.

(** *** Symmetry *)

Lemma binary_round_opp (s : bool) m e :
  binary_round prec emax (negb s) m e = SFopp (binary_round prec emax s m e).
Proof.
  unfold binary_round. destruct (shl_align _ _ _) as [mz ez].
  apply binary_round_aux_opp.
Qed.

Lemma fneg_involutive (x : float64) : fneg (fneg x) = x.
Proof. destruct x as [s|s| |s m e]; simpl; rewrite ?negb_involutive; reflexivity. Qed.

Lemma fmul_fneg_r (x y : float64) : fmul x (fneg y) = fneg (fmul x y).
Proof.
  destruct x as [sx|sx| |sx mx ex], y as [sy|sy| |sy my ey]; simpl;
    try reflexivity; try (destruct sx, sy; reflexivity).
  unfold fmul, SFmul. rewrite <- negb_xorb_r. apply binary_round_aux_opp.
Qed.

Lemma fmul_fneg_fneg (x : float64) : fmul (fneg x) (fneg x) = fmul x x.
Proof. rewrite fmul_fneg_l, fmul_fneg_r. apply fneg_involutive. Qed.

(** Swapping the operands of a subtraction negates the result, except
    that two equal operands give [+0] both ways. *)
Lemma fsub_swap (a b : float64) :
  fsub b a = fneg (fsub a b) \/ (fsub a b = fzero /\ fsub b a = fzero).
Proof.
  destruct a as [sa|sa| |sa ma ea], b as [sb|sb| |sb mb eb]; simpl;
    try (left; reflexivity);
    try (destruct sa, sb; simpl; (left; reflexivity) || (right; split; reflexivity)).
  unfold fsub, SFsub. rewrite (Z.min_comm eb ea).
  set (x := cond_Zopp sa (Z.pos (fst (shl_align ma ea (Z.min ea eb))))).
  set (y := cond_Zopp sb (Z.pos (fst (shl_align mb eb (Z.min ea eb))))).
  replace (y - x) with (- (x - y)) by lia.
  destruct (x - y) as [|p|p]; simpl.
  - right. split; reflexivity.
  - left. apply (binary_round_opp false).
  - left. rewrite <- (fneg_involutive (binary_round prec emax false p (Z.min ea eb))).
    f_equal. symmetry. apply (binary_round_opp false).
Qed.

Lemma squared_difference_sym (a b : float64) :
  fmul (fsub a b) (fsub a b) = fmul (fsub b a) (fsub b a).
Proof.
  destruct (fsub_swap a b) as [->|[-> ->]]; [|reflexivity].
  symmetry. apply fmul_fneg_fneg.
Qed.

Lemma squared_error_sum_sym (predictions targets : list float64) :
  squared_error_sum predictions targets = squared_error_sum targets predictions.
Proof.
  unfold squared_error_sum. generalize fzero as acc.
  revert targets. induction predictions as [|p ps IH]; intros [|t ts] acc;
    try reflexivity.
  simpl. rewrite (squared_difference_sym p t). apply IH.
Qed.

(** *** Sign *)

Lemma binary_round_aux_sign_clear m e l :
  sign_clear (binary_round_aux prec emax false m e l) = true.
Proof.
  unfold binary_round_aux.
  destruct (shr_fexp prec emax m e l) as [mrs' e'].
  destruct (shr_fexp prec emax _ e' loc_Exact) as [mrs'' e''].
  destruct (shr_m mrs''); [reflexivity| |reflexivity].
  destruct (e'' <=? emax - prec); reflexivity.
Qed.

Lemma binary_round_sign_clear m e :
  sign_clear (binary_round prec emax false m e) = true.
Proof.
  unfold binary_round. destruct (shl_align _ _ _) as [mz ez].
  apply binary_round_aux_sign_clear.
Qed.

Lemma fmul_self_sign_clear (x : float64) : sign_clear (fmul x x) = true.
Proof.
  destruct x as [s|s| |s m e]; simpl; try reflexivity; try (destruct s; reflexivity).
  destruct s; apply binary_round_aux_sign_clear.
Qed.

Lemma fadd_sign_clear (x y : float64) :
  sign_clear x = true -> sign_clear y = true -> sign_clear (fadd x y) = true.
Proof.
  destruct x as [sx|sx| |sx mx ex], y as [sy|sy| |sy my ey]; simpl;
    try reflexivity; try (destruct sx, sy; simpl; congruence).
  destruct sx, sy; simpl; try discriminate. intros _ _.
  unfold fadd, SFadd. simpl. apply binary_round_sign_clear.
Qed.

Lemma fdiv_sign_clear (x y : float64) :
  sign_clear x = true -> sign_clear y = true -> sign_clear (fdiv x y) = true.
Proof.
  destruct x as [sx|sx| |sx mx ex], y as [sy|sy| |sy my ey]; simpl;
    try reflexivity; try (destruct sx, sy; simpl; congruence).
  destruct sx, sy; simpl; try discriminate. intros _ _.
  unfold fdiv, SFdiv. simpl.
  destruct (SFdiv_core_binary prec emax (Z.pos mx) ex (Z.pos my) ey) as [[mz ez] lz].
  apply binary_round_aux_sign_clear.
Qed.

Lemma float64_of_int_sign_clear (n : Z) : 0 <= n -> sign_clear (float64_of_int n) = true.
Proof.
  intros Hn. unfold float64_of_int, binary_normalize.
  destruct n as [|p|p]; [reflexivity | apply binary_round_sign_clear | lia].
Qed.

Lemma squared_error_sum_sign_clear (predictions targets : list float64) :
  sign_clear (squared_error_sum predictions targets) = true.
Proof.
  unfold squared_error_sum.
  assert (H : forall l acc, sign_clear acc = true ->
            sign_clear (fold_left (fun loss '(p, t) => fadd loss (fmul (fsub p t) (fsub p t)))
                                  l acc) = true).
  { induction l as [|[p t] l IH]; intros acc Hacc; simpl; [exact Hacc|].
    apply IH, fadd_sign_clear; [exact Hacc | apply fmul_self_sign_clear]. }
  apply H. reflexivity.
Qed.

Lemma sign_clear_not_negative (x : float64) : sign_clear x = true -> flt x fzero = false.
Proof. destruct x as [s|s| |s m e]; simpl; try reflexivity; destruct s; try discriminate; reflexivity. Qed.

(** ** Max and Argmax scan alike *)

Lemma argmax_loop_running_max (l : list float64) : forall (i0 idx0 : Z) (m0 : float64) i idx m,
  fold_left argmax_step l (i0, idx0, m0) = (i, idx, m) -> m = running_max m0 l.
Proof.
  induction l as [|x l IH]; intros i0 idx0 m0 i idx m Hfold.
  - simpl in Hfold. injection Hfold as _ _ <-. reflexivity.
  - simpl in Hfold. unfold running_max. simpl.
    fold (running_max (if fgt x m0 then x else m0) l).
    destruct (fgt x m0); apply IH in Hfold; exact Hfold.
Qed.

(** ** Any number of training steps *)

Lemma Backward_sizes (q : QNetwork) (state prediction target : list float64)
    (lr : float64) (q' : QNetwork) :
  Backward q state prediction target lr = Ok q' ->
  inputSize q' = inputSize q /\ hiddenSize q' = hiddenSize q /\
  outputSize q' = outputSize q /\ activation q' = activation q.
Proof.
  intros H. unfold Backward in H.
  do 7 split_bind H. injection H as <-. repeat split.
Qed.

Lemma Train_inv (d : DQN) (state nextState : list float64) (action reward : Z)
    (done : bool) (d' : DQN) :
  Train d state nextState action reward done = Ok d' ->
  exists target currentQ,
    Train_target d nextState action reward done = Ok target /\
    Predict (qNetwork d) state = Ok currentQ /\
    Backward (qNetwork d) state currentQ target (learningRate d) = Ok (qNetwork d') /\
    replayBuffer d' = replayBuffer d /\ gamma d' = gamma d /\
    epsilon d' = epsilon d /\ learningRate d' = learningRate d.
Proof.
  intros H. unfold Train in H.
  apply bind_Ok in H as (target & Ht & H).
  apply bind_Ok in H as (currentQ & Hc & H).
  apply bind_Ok in H as (q' & Hq & H). injection H as <-.
  exists target, currentQ. repeat split; assumption.
Qed.



(** ** Further properties of the network *)



(** X2: on a network whose two matrices are rectangular, [Predict]
    succeeds exactly when the stored sizes are positive and agree with
    the shapes of the four tensors and the state has [inputSize]
    entries; it then returns [outputSize] values, and a state of any
    other length is rejected with the function's own message. *)
Theorem Predict_succeeds_iff (q : QNetwork) (state : list float64)
    (Hrect1 : rectangular (w1 q)) (Hrect2 : rectangular (w2 q)) :
  (is_Ok (Predict q state) <-> wf_network q /\ len state = inputSize q) /\
  (forall out, Predict q state = Ok out -> len out = outputSize q) /\
  (len state <> inputSize q ->
     Predict q state =
       Panic (PanicMsg "Input state size does not match network input size")).
Proof.
  split; [|split].
  - split.
    + intros [out Hout]. apply Predict_inv in Hout.
      destruct Hout as (Hs & Hi & Hh & Ho & Hr1 & Hc1 & Hb1 & Hr2 & Hc2 & Hb2 & _).
      split; [constructor; assumption | exact Hs].
    + intros [Hwf Hs]. eexists. apply Predict_Ok; assumption.
  - intros out Hout. apply Predict_inv in Hout. tauto.
  - intros Hne. unfold Predict.
    replace (len state =? inputSize q) with false
      by (symmetry; apply Z.eqb_neq; exact Hne).
    reflexivity.
Qed.

Lemma Predict_succeeds_iff_witness :
  rectangular (w1 two_output_network) /\ rectangular (w2 two_output_network) /\
  is_Ok (Predict two_output_network [fone]) /\
  Predict two_output_network [fone; fone] =
    Panic (PanicMsg "Input state size does not match network input size").
Proof.
  pose proof (wf_w1_rect _ two_output_network_wf) as H1.
  pose proof (wf_w2_rect _ two_output_network_wf) as H2.
  split; [exact H1|]. split; [exact H2|].
  destruct (Predict_succeeds_iff two_output_network [fone] H1 H2) as (Hiff & _ & _).
  destruct (Predict_succeeds_iff two_output_network [fone; fone] H1 H2) as (_ & _ & Hbad).
  split.
  - apply Hiff. split; [exact two_output_network_wf | reflexivity].
  - apply Hbad. unfold len. simpl. lia.
Defined.

(** X3: on a network of consistent shapes [Backward] succeeds exactly
    when the state has [inputSize] entries and the prediction and the
    target have [outputSize] entries each; every other call panics.  A
    successful call leaves the sizes and the activation as they were and
    a network of consistent shapes. *)
Theorem Backward_succeeds_iff (q : QNetwork) (state prediction target : list float64)
    (lr : float64) (Hwf : wf_network q) :
  (is_Ok (Backward q state prediction target lr) <->
     len state = inputSize q /\ len prediction = outputSize q /\
     len target = outputSize q) /\
  (forall q', Backward q state prediction target lr = Ok q' ->
     wf_network q' /\ inputSize q' = inputSize q /\ hiddenSize q' = hiddenSize q /\
     outputSize q' = outputSize q /\ activation q' = activation q).
Proof.
  assert (Hlens : forall q', Backward q state prediction target lr = Ok q' ->
            len state = inputSize q /\ len prediction = outputSize q /\
            len target = outputSize q).
  { intros q' Hq'. unfold Backward in Hq'.
    apply bind_Ok in Hq' as (g & Hg & _).
    apply Backward_gradients_inv in Hg as (Hc & Hp & Ht).
    rewrite (wf_w1_cols _ Hwf) in Hc. repeat split; congruence. }
  split.
  - split.
    + intros [q' Hq']. exact (Hlens q' Hq').
    + intros (Hs & Hp & Ht).
      destruct (Backward_Ok q Hwf state prediction target Hs Hp Ht lr) as (q' & Hq' & _).
      exists q'. exact Hq'.
  - intros q' Hq'. destruct (Hlens q' Hq') as (Hs & Hp & Ht).
    destruct (Backward_Ok q Hwf state prediction target Hs Hp Ht lr) as (q'' & Hq'' & Hwf'').
    rewrite Hq' in Hq''. injection Hq'' as <-.
    split; [exact Hwf''|]. exact (Backward_sizes _ _ _ _ _ _ Hq').
Qed.

Lemma Backward_succeeds_iff_witness :
  wf_network two_output_network /\
  is_Ok (Backward two_output_network [fone] [fzero; fone] [fone; fone] fone) /\
  ~ is_Ok (Backward two_output_network [fone] [fzero] [fone; fone] fone).
Proof.
  split; [exact two_output_network_wf|].
  destruct (Backward_succeeds_iff two_output_network [fone] [fzero; fone] [fone; fone]
              fone two_output_network_wf) as [Hgood _].
  destruct (Backward_succeeds_iff two_output_network [fone] [fzero] [fone; fone]
              fone two_output_network_wf) as [Hbad _].
  split.
  - apply Hgood. repeat split.
  - intros Hok. apply Hbad in Hok as (_ & Hp & _). unfold len in Hp. simpl in Hp. lia.
Defined.

(** X4: on an agent whose network has consistent shapes [Train] succeeds
    exactly when both states have [inputSize] entries and the action lies
    in [[0, outputSize)]; with a good next state, an action outside that
    range panics with an index out of range.  A successful call leaves
    the replay buffer, [gamma], [epsilon] and [learningRate] untouched
    and a network of consistent shapes. *)
Theorem Train_succeeds_iff (d : DQN) (state nextState : list float64)
    (action reward : Z) (done : bool) (Hwf : wf_network (qNetwork d)) :
  (is_Ok (Train d state nextState action reward done) <->
     len state = inputSize (qNetwork d) /\
     len nextState = inputSize (qNetwork d) /\
     0 <= action < outputSize (qNetwork d)) /\
  (len nextState = inputSize (qNetwork d) ->
   ~ (0 <= action < outputSize (qNetwork d)) ->
   Train d state nextState action reward done = Panic IndexOutOfRange) /\
  (forall d', Train d state nextState action reward done = Ok d' ->
     wf_network (qNetwork d') /\ replayBuffer d' = replayBuffer d /\
     gamma d' = gamma d /\ epsilon d' = epsilon d /\
     learningRate d' = learningRate d).
Proof.
  assert (Htarget : forall target,
            Train_target d nextState action reward done = Ok target ->
            len nextState = inputSize (qNetwork d) /\
            0 <= action < outputSize (qNetwork d)).
  { intros target Ht. unfold Train_target in Ht.
    apply bind_Ok in Ht as (nextQ & Hn & Ht).
    pose proof (Predict_inv _ _ _ Hn) as (Hlen & _ & _ & _ & _ & _ & _ & _ & _ & _ & Hout).
    apply bind_Ok in Ht as (m & _ & Ht).
    apply bind_Ok in Ht as (t0 & Ht0 & Ht).
    unfold make in Ht0. destruct (len nextQ <? 0); [discriminate|].
    injection Ht0 as <-.
    apply bind_Ok in Ht as (t1 & Ht1 & _).
    apply set_index_inv in Ht1.
    rewrite copy_same_length in Ht1
      by (rewrite length_replicate; unfold len; lia).
    split; [exact Hlen | lia]. }
  split; [|split].
  - split.
    + intros [d' Hd'].
      apply Train_inv in Hd' as (target & currentQ & Ht & Hc & _).
      apply Htarget in Ht as [Hn Ha].
      apply Predict_inv in Hc as (Hs & _). repeat split; (assumption || lia).
    + intros (Hs & Hn & Ha).
      destruct (Train_Ok d state nextState action reward done Hwf Hs Hn Ha) as (d' & Hd' & _).
      exists d'. exact Hd'.
  - intros Hn Hrange. unfold Train, Train_target.
    rewrite (Predict_Ok _ Hwf _ Hn), bind_Ok_l.
    destruct (Max_spec _ (forward_nonempty _ Hwf nextState)) as (m & -> & _).
    rewrite bind_Ok_l. unfold make.
    replace (len (forward (qNetwork d) nextState) <? 0) with false
      by (symmetry; apply Z.ltb_ge, len_nonneg).
    rewrite bind_Ok_l, copy_same_length
      by (rewrite length_replicate; unfold len; lia).
    rewrite set_index_out_of_range; [reflexivity|].
    rewrite (len_forward _ Hwf). exact Hrange.
  - intros d' Hd'.
    pose proof (Train_inv _ _ _ _ _ _ _ Hd') as (target & currentQ & Ht & Hc & _ & Hrest).
    apply Htarget in Ht as [Hn Ha]. apply Predict_inv in Hc as (Hs & _).
    destruct (Train_Ok d state nextState action reward done Hwf Hs Hn Ha)
      as (d'' & Hd'' & Hwf'' & _).
    rewrite Hd' in Hd''. injection Hd'' as <-. split; [exact Hwf''|exact Hrest].
Qed.

Lemma Train_succeeds_iff_witness :
  wf_network (qNetwork (agent two_output_network fzero)) /\
  is_Ok (Train (agent two_output_network fzero) [fone] [fone] 1 1 false) /\
  Train (agent two_output_network fzero) [fone] [fone] 2 1 false = Panic IndexOutOfRange.
Proof.
  split; [exact two_output_network_wf|].
  destruct (Train_succeeds_iff (agent two_output_network fzero) [fone] [fone] 1 1 false
              two_output_network_wf) as (Hgood & _ & _).
  destruct (Train_succeeds_iff (agent two_output_network fzero) [fone] [fone] 2 1 false
              two_output_network_wf) as (_ & Hbad & _).
  split.
  - apply Hgood. repeat split; simpl; lia.
  - apply Hbad; [reflexivity | simpl; lia].
Defined.



(** X6: [Max] and [Argmax] panic with an index out of range on an empty
    slice, and on every other slice [Max] returns exactly the entry at
    the index [Argmax] returns. *)
Theorem Max_is_entry_at_Argmax (arr : list float64) :
  (arr = [] -> Argmax arr = Panic IndexOutOfRange /\ Max arr = Panic IndexOutOfRange) /\
  (arr <> [] ->
     exists i m, Argmax arr = Ok i /\ Max arr = Ok m /\
       0 <= i < len arr /\ arr !! Z.to_nat i = Some m).
Proof.
  split; [intros ->; split; reflexivity|].
  destruct arr as [|a0 rest]; [congruence|]. intros _.
  unfold Argmax, Max. change (index (a0 :: rest) 0) with (Ok a0). rewrite !bind_Ok_l.
  destruct (fold_left argmax_step (a0 :: rest) (0, 0, a0)) as [[i idx] m] eqn:Hfold.
  pose proof (argmax_loop_running_max _ _ _ _ _ _ _ Hfold) as Hm.
  apply argmax_loop in Hfold as (_ & Hcases & _).
  exists idx, m. split; [reflexivity|]. split; [rewrite Hm; reflexivity|].
  destruct Hcases as [[-> ->]|(Hrange & Hlook & _)].
  - split; [unfold len; simpl; lia | reflexivity].
  - rewrite Z.sub_0_r in Hlook. split; [lia | exact Hlook].
Qed.

Lemma Max_is_entry_at_Argmax_witness :
  [f64 1; f64 3; f64 3] <> [] /\
  exists i m, Argmax [f64 1; f64 3; f64 3] = Ok i /\ Max [f64 1; f64 3; f64 3] = Ok m /\
    [f64 1; f64 3; f64 3] !! Z.to_nat i = Some m.
Proof.
  assert (Hne : [f64 1; f64 3; f64 3] <> []) by discriminate.
  split; [exact Hne|].
  destruct (Max_is_entry_at_Argmax [f64 1; f64 3; f64 3]) as [_ H].
  destruct (H Hne) as (i & m & Hi & Hm & _ & Hlook).
  exists i, m. repeat split; assumption.
Defined.

(** X7: [Loss] does not depend on the order of its two arguments:
    swapping predictions and targets gives the same result bit for bit,
    the same panic included. *)
Theorem Loss_symmetric (q : QNetwork) (predictions targets : list float64) :
  Loss q predictions targets = Loss q targets predictions.
Proof.
  destruct (Z.eq_dec (len predictions) (len targets)) as [Heq|Hne].
  - rewrite !Loss_value by congruence.
    rewrite squared_error_sum_sym, Heq. reflexivity.
  - unfold Loss.
    replace (len predictions =? len targets) with false
      by (symmetry; apply Z.eqb_neq; exact Hne).
    replace (len targets =? len predictions) with false
      by (symmetry; apply Z.eqb_neq; congruence).
    reflexivity.
Qed.

(** X8: [Loss] panics exactly when the two lengths differ; on equal
    lengths it returns the accumulated sum of squared differences
    divided by the length, a value that is never below zero (it is NaN
    or has its sign bit clear). *)
Theorem Loss_total_and_not_negative (q : QNetwork) (predictions targets : list float64) :
  (len predictions <> len targets ->
     Loss q predictions targets =
       Panic (PanicMsg "Predictions and targets must have the same length")) /\
  (len predictions = len targets ->
     exists r, Loss q predictions targets = Ok r /\
       r = fdiv (squared_error_sum predictions targets)
                (float64_of_int (len predictions)) /\
       sign_clear r = true /\ flt r fzero = false).
Proof.
  split.
  - intros Hne. unfold Loss.
    replace (len predictions =? len targets) with false
      by (symmetry; apply Z.eqb_neq; exact Hne).
    reflexivity.
  - intros Heq. eexists. split; [apply Loss_value, Heq|]. split; [reflexivity|].
    assert (Hs : sign_clear (fdiv (squared_error_sum predictions targets)
                               (float64_of_int (len predictions))) = true).
    { apply fdiv_sign_clear; [apply squared_error_sum_sign_clear|].
      apply float64_of_int_sign_clear, len_nonneg. }
    split; [exact Hs | apply sign_clear_not_negative, Hs].
Qed.

Lemma Loss_total_and_not_negative_witness :
  len [f64 1; f64 2] = len [f64 3; f64 5] /\
  exists r, Loss two_output_network [f64 1; f64 2] [f64 3; f64 5] = Ok r /\
            flt r fzero = false.
Proof.
  assert (Hlen : len [f64 1; f64 2] = len [f64 3; f64 5]) by reflexivity.
  split; [exact Hlen|].
  destruct (Loss_total_and_not_negative two_output_network [f64 1; f64 2] [f64 3; f64 5])
    as [_ H].
  destruct (H Hlen) as (r & Hr & _ & _ & Hnn).
  exists r. split; assumption.
Defined.

(** X9: with [epsilon] at least 1 the policy always takes the random
    branch: it returns the draw of [rand.Intn(numActions)] whatever the
    state and the network are (it never calls [Predict], so a state of
    the wrong length is not noticed), and panics exactly when
    [numActions] is not positive. *)
Theorem EpsilonGreedyPolicy_always_explores (d : DQN) (state : list float64)
    (numActions : Z) (g : RandSource)
    (Heps : fle fone (epsilon d) = true) (Hg : rand_ok g) :
  EpsilonGreedyPolicy d state numActions g = Intn g 0 numActions /\
  (0 < numActions ->
     exists a, EpsilonGreedyPolicy d state numActions g = Ok a /\ 0 <= a < numActions) /\
  (numActions <= 0 ->
     EpsilonGreedyPolicy d state numActions g = Panic InvalidIntn).
Proof.
  destruct Hg as [Hfloat Hint]. destruct (Hfloat 0%nat) as [_ Hlt].
  assert (Hbranch : EpsilonGreedyPolicy d state numActions g = Intn g 0 numActions).
  { unfold EpsilonGreedyPolicy, Float64.
    rewrite (flt_fle_trans _ _ _ Hlt Heps). reflexivity. }
  split; [exact Hbranch|]. rewrite Hbranch. unfold Intn. split.
  - intros Hn. replace (numActions <=? 0) with false
      by (symmetry; apply Z.leb_gt; lia).
    eexists. split; [reflexivity | apply Hint, Hn].
  - intros Hn. replace (numActions <=? 0) with true
      by (symmetry; apply Z.leb_le; lia).
    reflexivity.
Qed.

Lemma EpsilonGreedyPolicy_always_explores_witness :
  fle fone (epsilon (agent two_output_network fone)) = true /\
  rand_ok zero_source /\
  exists a, EpsilonGreedyPolicy (agent two_output_network fone) [] 2 zero_source = Ok a /\
            0 <= a < 2.
Proof.
  split; [reflexivity|]. split; [exact zero_source_ok|].
  destruct (EpsilonGreedyPolicy_always_explores (agent two_output_network fone) [] 2
              zero_source eq_refl zero_source_ok) as (_ & H & _).
  apply H. lia.
Defined.



(** X11: [slicesToMat] returns nil for no rows at all, panics when the
    first row is empty or when the number of entries is not the number of
    rows times the width of the first row, and otherwise returns a matrix
    of that many rows and that width holding the entries in the same
    order.  Rows of unequal lengths are thus accepted when the count
    fits, and regrouped; rows of equal lengths are returned as they
    are. *)
Theorem slicesToMat_cases (s : list (list float64)) :
  (s = [] -> slicesToMat s = Ok None) /\
  (forall s0 rest, s = s0 :: rest ->
     (s0 = [] -> slicesToMat s = Panic ErrZeroLength) /\
     (s0 <> [] -> len (concat s) <> len s * len s0 ->
        slicesToMat s = Panic ErrShape) /\
     (s0 <> [] -> len (concat s) = len s * len s0 ->
        exists m, slicesToMat s = Ok (Some m) /\
          has_shape m (len s) (len s0) /\ concat m = concat s /\
          (Forall (fun row => len row = len s0) s -> m = s))).
Proof.
  split; [intros ->; reflexivity|].
  intros s0 rest ->.
  assert (Hrows : 0 < len (s0 :: rest)) by (unfold len; simpl; lia).
  assert (Hhead : slicesToMat (s0 :: rest) =
            (m ← NewDenseData (len (s0 :: rest)) (len s0) (concat (s0 :: rest));
             Ok (Some m))).
  { unfold slicesToMat.
    replace (len (s0 :: rest) =? 0) with false by (symmetry; apply Z.eqb_neq; lia).
    change (index (s0 :: rest) 0) with (Ok s0).
    rewrite bind_Ok_l, append_rows_concat, app_nil_l. reflexivity. }
  split; [|split].
  - intros ->. rewrite Hhead. unfold NewDenseData.
    rewrite (check_dim_pos (len ([] :: rest))) by exact Hrows. reflexivity.
  - intros Hne Htotal. rewrite Hhead. unfold NewDenseData.
    assert (0 < len s0) by (destruct s0; [congruence | unfold len; simpl; lia]).
    rewrite !check_dim_pos, !bind_Ok_l by assumption.
    replace (len (concat (s0 :: rest)) =? len (s0 :: rest) * len s0) with false
      by (symmetry; apply Z.eqb_neq; exact Htotal).
    reflexivity.
  - intros Hne Htotal. eexists. split; [apply slicesToMat_value; assumption|].
    destruct (reshape_shape (length (s0 :: rest)) (length s0) (concat (s0 :: rest)))
      as (Hl & Hall & Hcat); [unfold len in Htotal; lia|].
    split; [|split].
    + split; [unfold len; rewrite Hl; reflexivity|].
      eapply Forall_impl; [exact Hall|]. simpl. intros row Hrow. unfold len. lia.
    + exact Hcat.
    + intros Hrect. apply reshape_concat.
      eapply Forall_impl; [exact Hrect|]. simpl. intros row Hrow. unfold len in Hrow. lia.
Qed.

Lemma slicesToMat_cases_witness :
  [f64 1; f64 2] <> [] /\
  len (concat [[f64 1; f64 2]; [f64 3]; [f64 4; f64 5; f64 6]])
    = len [[f64 1; f64 2]; [f64 3]; [f64 4; f64 5; f64 6]] * len [f64 1; f64 2] /\
  exists m, slicesToMat [[f64 1; f64 2]; [f64 3]; [f64 4; f64 5; f64 6]] = Ok (Some m) /\
            has_shape m 3 2.
Proof.
  assert (Hne : [f64 1; f64 2] <> []) by discriminate.
  assert (Htotal : len (concat [[f64 1; f64 2]; [f64 3]; [f64 4; f64 5; f64 6]])
            = len [[f64 1; f64 2]; [f64 3]; [f64 4; f64 5; f64 6]] * len [f64 1; f64 2])
    by reflexivity.
  split; [exact Hne|]. split; [exact Htotal|].
  destruct (slicesToMat_cases [[f64 1; f64 2]; [f64 3]; [f64 4; f64 5; f64 6]]) as [_ H].
  destruct (H _ _ eq_refl) as (_ & _ & Hok).
  destruct (Hok Hne Htotal) as (m & Hm & Hshape & _).
  exists m. split; [exact Hm | exact Hshape].
Defined.

(** X12: the conversions of the serializer are inverse to each other on
    what a network can hold: a matrix of [r > 0] rows and [c > 0]
    columns goes through [matToSlices] and back through [slicesToMat]
    unchanged, and so does a non-empty vector through [vecToSlice] and
    [sliceToVec]; an empty slice comes back as nil. *)
Theorem slices_round_trip (m : list (list float64)) (r c : Z) (v : list float64)
    (Hr : 0 < r) (Hc : 0 < c) (Hshape : has_shape m r c) (Hv : v <> []) :
  (exists s, matToSlices m = Ok s /\ slicesToMat s = Ok (Some m)) /\
  (exists s, vecToSlice v = Ok s /\ sliceToVec s = Ok (Some v)) /\
  sliceToVec [] = Ok None.
Proof.
  split; [|split; [|reflexivity]].
  - exists m. split.
    + apply matToSlices_copy. destruct (has_shape_dims _ _ _ Hr Hshape) as (_ & _ & H).
      exact H.
    + exact (slicesToMat_rectangular _ _ _ Hr Hc Hshape).
  - exists v. split; [apply vecToSlice_copy | apply sliceToVec_nonempty, Hv].
Qed.

Lemma slices_round_trip_witness :
  0 < 2 /\ 0 < 1 /\ has_shape (w2 two_output_network) 2 1 /\
  b2 two_output_network <> [] /\
  exists s, matToSlices (w2 two_output_network) = Ok s /\
            slicesToMat s = Ok (Some (w2 two_output_network)).
Proof.
  assert (Hshape : has_shape (w2 two_output_network) 2 1).
  { split; [reflexivity|]. repeat constructor. }
  assert (Hv : b2 two_output_network <> []) by discriminate.
  split; [lia|]. split; [lia|]. split; [exact Hshape|]. split; [exact Hv|].
  destruct (slices_round_trip (w2 two_output_network) 2 1 (b2 two_output_network)
              ltac:(lia) ltac:(lia) Hshape Hv) as [H _].
  exact H.
Defined.



(** X14: [Load] does not check the loaded tensors against the sizes of
    the receiving agent.  When the parameters of an agent with
    consistent shapes are loaded into an agent one of whose three sizes
    differs, the call succeeds and every later [Predict] panics,
    whatever the state. *)
Theorem Load_other_sizes_breaks_Predict (d d2 : DQN) (s : serializableDQN) (d' : DQN)
    (Hwf : wf_network (qNetwork d))
    (Hsave : Save_struct d = Ok s)
    (Hload : Load_struct d2 s = Ok (Some d'))
    (Hsizes : inputSize (qNetwork d2) <> inputSize (qNetwork d) \/
              hiddenSize (qNetwork d2) <> hiddenSize (qNetwork d) \/
              outputSize (qNetwork d2) <> outputSize (qNetwork d)) :
  forall state, is_Panic (Predict (qNetwork d') state).
Proof.
  rewrite Save_struct_Ok in Hsave
    by (apply (wf_w1_rect _ Hwf) || apply (wf_w2_rect _ Hwf)).
  injection Hsave as <-.
  rewrite (Load_struct_Ok d2 (qNetwork d) _ _ _ Hwf) in Hload.
  injection Hload as <-. cbn [qNetwork].
  intros state. apply is_Ok_not_Panic. intros [out Hout].
  apply Predict_inv in Hout.
  cbn [inputSize hiddenSize outputSize w1 b1 w2 b2] in Hout.
  destruct Hout as (_ & _ & _ & _ & Hr1 & Hc1 & _ & Hr2 & _).
  rewrite (wf_w1_rows _ Hwf) in Hr1. rewrite (wf_w1_cols _ Hwf) in Hc1.
  rewrite (wf_w2_rows _ Hwf) in Hr2.
  destruct Hsizes as [H|[H|H]]; congruence.
Qed.

Lemma Load_other_sizes_breaks_Predict_witness :
  wf_network (qNetwork (agent two_output_network fzero)) /\
  exists s d',
    Save_struct (agent two_output_network fzero) = Ok s /\
    Load_struct (agent (tiny_network 1 1) fzero) s = Ok (Some d') /\
    is_Panic (Predict (qNetwork d') [fone]).
Proof.
  split; [exact two_output_network_wf|].
  eexists. eexists. split; [reflexivity|]. split; [reflexivity|].
  apply (Load_other_sizes_breaks_Predict (agent two_output_network fzero)
           (agent (tiny_network 1 1) fzero) _ _ two_output_network_wf eq_refl eq_refl).
  right. right. simpl. lia.
Defined.




(** ** The manufacturing environment *)

Lemma fabs_sign_clear (x : float64) : sign_clear (fabs x) = true.
Proof. destruct x; reflexivity. Qed.

Lemma fdiv_fneg_l (x y : float64) : fdiv (fneg x) y = fneg (fdiv x y).
Proof.
  destruct x as [sx|sx| |sx mx ex], y as [sy|sy| |sy my ey]; simpl;
    try reflexivity; try (destruct sx, sy; reflexivity).
  unfold fdiv, SFdiv.
  destruct (SFdiv_core_binary prec emax (Z.pos mx) ex (Z.pos my) ey) as [[mz ez] lz].
  rewrite <- negb_xorb_l. apply binary_round_aux_opp.
Qed.

(** Subtracting a value that is not negative from one that is not
    positive gives a value that is not positive. *)
Lemma fsub_sign_set (r t : float64) :
  sign_clear (fneg r) = true -> sign_clear t = true -> sign_clear (fneg (fsub r t)) = true.
Proof.
  destruct r as [sr|sr| |sr mr er], t as [st|st| |st mt et]; simpl;
    try reflexivity; try (destruct sr, st; simpl; congruence).
  destruct sr, st; simpl; try discriminate. intros _ _.
  unfold fsub, SFsub. simpl.
  rewrite (binary_round_opp false _ _ : binary_round prec emax true _ _ = _).
  unfold fneg. rewrite (fneg_involutive (binary_round prec emax false _ _)).
  apply binary_round_sign_clear.
Qed.

Lemma sign_set_not_positive (x : float64) :
  sign_clear (fneg x) = true -> flt fzero x = false.
Proof.
  destruct x as [s|s| |s m e]; simpl; try reflexivity;
    destruct s; try discriminate; reflexivity.
Qed.

Lemma sign_set_le_zero (x : float64) :
  sign_clear (fneg x) = true -> is_nan x = false -> fle x fzero = true.
Proof.
  destruct x as [s|s| |s m e]; simpl; try reflexivity; try discriminate;
    destruct s; try discriminate; reflexivity.
Qed.

Lemma flt_not_nan_r (a b : float64) : flt a b = true -> is_nan b = false.
Proof. destruct a as [?|?| |? ? ?], b as [?|?| |? ? ?]; simpl; try reflexivity; discriminate. Qed.

Lemma reward_of_sign_set (t p f : float64) : sign_clear (fneg (reward_of t p f)) = true.
Proof.
  unfold reward_of. apply fsub_sign_set; [apply fsub_sign_set|].
  - rewrite fdiv_fneg_l, fneg_involutive.
    apply fdiv_sign_clear; [apply fabs_sign_clear | reflexivity].
  - apply fdiv_sign_clear; [apply fabs_sign_clear | reflexivity].
  - apply fdiv_sign_clear; [apply fabs_sign_clear | reflexivity].
Qed.

(** X16: a step of the manufacturing environment returns as state the
    three parameters it leaves, with a reward computed from them that is
    never positive (it is NaN or has its sign bit set); [done] is raised
    exactly when the reward exceeds -50, so only for a reward in
    [(-50, 0]], and never for a NaN reward.  An action outside 0..5
    leaves the three parameters as they were. *)
Theorem Step_reward_never_positive (env : ManufacturingEnvironment) (action : Z) :
  exists env' reward done,
    Step env action =
      (env', [temperature env'; pressure env'; flow env'], reward, done) /\
    reward = reward_of (temperature env') (pressure env') (flow env') /\
    flt fzero reward = false /\
    done = fgt reward (float64_of_int (-50)) /\
    (done = true -> fle reward fzero = true /\ is_nan reward = false) /\
    (~ (0 <= action <= 5) ->
       temperature env' = temperature env /\ pressure env' = pressure env /\
       flow env' = flow env).
Proof.
  assert (Hsign : forall t p f, flt fzero (reward_of t p f) = false /\
            (fgt (reward_of t p f) (float64_of_int (-50)) = true ->
             fle (reward_of t p f) fzero = true /\ is_nan (reward_of t p f) = false)).
  { intros t p f. pose proof (reward_of_sign_set t p f) as Hs.
    split; [apply sign_set_not_positive, Hs|].
    intros Hd. apply flt_not_nan_r in Hd.
    split; [apply sign_set_le_zero; assumption | exact Hd]. }
  unfold Step.
  destruct (if action =? 0 then _ else _) as [[t p] f] eqn:Hcase.
  exists {| temperature := t; pressure := p; flow := f;
            stepCount := int_add (stepCount env) 1 |},
         (reward_of t p f), (fgt (reward_of t p f) (float64_of_int (-50))).
  cbn [temperature pressure flow].
  split; [reflexivity|]. split; [reflexivity|]. split; [apply Hsign|].
  split; [reflexivity|]. split; [apply Hsign|].
  intros Hout.
  replace (action =? 0) with false in Hcase by (symmetry; apply Z.eqb_neq; lia).
  replace (action =? 1) with false in Hcase by (symmetry; apply Z.eqb_neq; lia).
  replace (action =? 2) with false in Hcase by (symmetry; apply Z.eqb_neq; lia).
  replace (action =? 3) with false in Hcase by (symmetry; apply Z.eqb_neq; lia).
  replace (action =? 4) with false in Hcase by (symmetry; apply Z.eqb_neq; lia).
  replace (action =? 5) with false in Hcase by (symmetry; apply Z.eqb_neq; lia).
  injection Hcase as <- <- <-. repeat split.
Qed.

Lemma Step_reward_never_positive_witness :
  ~ (0 <= 7 <= 5) /\
  exists env' reward done,
    Step NewManufacturingEnvironment 7 =
      (env', [temperature env'; pressure env'; flow env'], reward, done) /\
    temperature env' = float64_of_int 150 /\ flt fzero reward = false.
Proof.
  assert (Hout : ~ (0 <= 7 <= 5)) by lia.
  split; [exact Hout|].
  destruct (Step_reward_never_positive NewManufacturingEnvironment 7)
    as (env' & reward & done & HS & _ & Hsign & _ & _ & Hsame).
  destruct (Hsame Hout) as (Ht & _).
  exists env', reward, done. split; [exact HS|]. split; [exact Ht | exact Hsign].
Defined.
